(** * PyCycle: rhythm detection pipeline, embedded from [PyCycle.py]

    Python floats and numpy [float64] values are IEEE-754 binary64 numbers;
    they are embedded as Rocq's primitive [float], whose operations are the
    same binary64 operations (round to nearest even, NaN unordered).  Float
    literals of the source are written as the same decimal literals here and
    denote the nearest binary64 value in both languages.

    Code that raises returns [None]; a [try ... except:] block is a match on
    that option.  Functions of numpy, pandas, scipy and statsmodels whose
    code is not part of the repository are the fields of [Libraries]; what a
    theorem needs to know about one of them is a named contract in its
    statement.  [np.argmin] and the key lookup of [dict] decide several
    properties and are written out. *)

From Stdlib Require Import ZArith NArith List Bool String Lia Permutation Sorted.
From Stdlib Require Import Floats.
Import ListNotations.

Set Warnings "-inexact-float".

Local Open Scope float_scope.

(** Python's [>=], [>] and [!=] on floats are the IEEE comparisons. *)
Notation "x >=? y" := (PrimFloat.leb y x) (at level 70, no associativity) : float_scope.
Notation "x >? y" := (PrimFloat.ltb y x) (at level 70, no associativity) : float_scope.
Notation "x !=? y" := (negb (PrimFloat.eqb x y)) (at level 70, no associativity) : float_scope.

(** Raising code: [x <- e ;; k] propagates the exception of [e]. *)
Notation "x <- e ;; k" := (match e with Some x => k | None => None end)
  (at level 61, e at next level, right associativity).
Notation "' p <- e ;; k" := (match e with Some p => k | None => None end)
  (at level 61, p pattern, e at next level, right associativity).

Fixpoint mapM {A B : Type} (f : A -> option B) (l : list A) : option (list B) :=
  match l with
  | [] => Some []
  | a :: l' => b <- f a ;; bs <- mapM f l' ;; Some (b :: bs)
  end.

(** Element-wise binary operation of two numpy arrays of equal length. *)
Fixpoint map2 {A B C : Type} (f : A -> B -> C) (l : list A) (m : list B) : list C :=
  match l, m with
  | a :: l', b :: m' => f a b :: map2 f l' m'
  | _, _ => []
  end.

(** ** Data model *)

Definition math_pi : float := 0x1.921fb54442d18p+1.

(** [float] of a string of digits: the integer rounded to the nearest
    binary64 value, +infinity beyond the largest one. *)
Definition float_of_N (n : N) : float :=
  SF2Prim (binary_normalize prec emax (Z.of_N n) 0 false).

(** The non-negative integer a float is equal to, if it is one. *)
Definition float_as_N (x : float) : option N :=
  match Prim2SF x with
  | S754_zero _ => Some 0%N
  | S754_finite false m e =>
      if (0 <=? e)%Z then Some (Npos m * 2 ^ Z.to_N e)%N
      else if (Npos m mod 2 ^ Z.to_N (- e) =? 0)%N
           then Some (Npos m / 2 ^ Z.to_N (- e))%N
           else None
  | _ => None
  end.

(** A column label, given by what the two extractions of the source read
    from it: line 116 reads a float from the characters between the second
    one and the first underscore, lines 95-96 read the integer of the first
    match of [(ZT\d+)_(C\d+)].  [ZT_C zt c] is a label of the documented
    shape [ZT<zt>_C<c>], on which both read [zt].  [Other name] is a label
    from which neither reads a number, such as the header of an identifier
    column.  [Reads time zt] is any other label: [time] is what line 116
    reads and [zt] what lines 95-96 read, [None] where that extraction
    finds nothing to read (in 'ZT12_ZT6_C1' they read 12 and 6).  Labels
    of one row are distinct, as pandas makes them when it reads a table. *)
Inductive Label :=
  | ZT_C (zt c : N)
  | Other (name : string)
  | Reads (time : option float) (zt : option N).

Inductive Cell :=
  | Str (s : string)
  | Num (x : float).

(** A row handed to [fit_best_waveform]: [df_row.index] with [df_row.values]. *)
Definition Series : Type := list (Label * Cell).

(** [astype(int)] converts to 64-bit integers: an integer from 2^63 on
    is an [OverflowError], a label without a match a [ValueError]. *)
Definition as_int64 (zt : N) : option N :=
  if (zt <? 2 ^ 63)%N then Some zt else None.

(** Lines 95-96 on one label. *)
Definition label_zt (l : Label) : option N :=
  match l with
  | ZT_C zt _ => as_int64 zt
  | Other _ => None
  | Reads _ (Some zt) => as_int64 zt
  | Reads _ None => None
  end.

(** Line 116 on one label: [float(col.split('_')[0][2:])]. *)
Definition label_time (l : Label) : option float :=
  match l with
  | ZT_C zt _ => Some (float_of_N zt)
  | Other _ => None
  | Reads time _ => time
  end.

Definition cell_num (c : Cell) : option float :=
  match c with Num x => Some x | Str _ => None end.

(** An index label of the table: a cell of the identifier column, or a
    position of the default [RangeIndex]. *)
Inductive IndexLabel :=
  | Ix (c : Cell)
  | RangeIx (i : nat).

Record DataFrame := {
  df_columns : list Label;
  df_rows : list (IndexLabel * list Cell)
}.

(** [np.nan] or the fitted parameter array; [np.nan] or the covariance matrix. *)
Inductive PyParams := NaNParams | Params (popt : list float).
Inductive PyCov := NaNCov | Cov (pcov : list (list float)).

(** The [Type] column: a category name or [np.nan]. *)
Inductive Oscillation := Category (name : string) | NoCall.

Inductive Model :=
  | extended_harmonic_oscillator
  | pseudo_square_wave
  | pseudo_cycloid_wave
  | transient_impulse.

(** The arguments of one call of [scipy.optimize.curve_fit]. *)
Record CurveFitCall := {
  f : Model;
  xdata : list float;
  ydata : list float;
  bounds : list float * list float;
  sigma : list float;
  p0 : list float;
  maxfev : Z
}.

(** What one [try]/[except] block of [fit_best_waveform] leaves behind. *)
Record Fit := {
  params : PyParams;
  covariance : PyCov;
  fitted_values : list float;
  sse : float
}.

(** A row of the output table, columns [Feature], [p-val], [corr p-val],
    [Type], [parameters]. *)
Record OutRow := {
  Feature : IndexLabel;
  p_val : float;
  corr_p_val : float;
  Type_ : Oscillation;
  parameters : PyParams
}.

(** The library functions the pipeline calls. *)
Record Libraries := {
  np_exp : float -> float;
  np_cos : float -> float;
  np_sin : float -> float;
  np_sinc : float -> float;
  np_mean : list float -> float;
  np_max : list float -> float;
  np_min : list float -> float;
  np_sum : list float -> float;
  (** [Series.var(ddof=1)] *)
  series_var : list float -> float;
  (** [curve_fit(...)]: [popt, pcov], or [None] when it raises *)
  curve_fit : CurveFitCall -> option (list float * list (list float));
  (** [kendalltau(x, y)] on sequences of equal length: [tau, p_value] *)
  kendalltau : list float -> list float -> float * float;
  (** [multipletests(pvals, method='fdr_tsbh')[1]] *)
  multipletests : list float -> list float;
  (** [DataFrame.sort_values(by=column)], default [kind] and [na_position] *)
  sort_values : (OutRow -> float) -> list OutRow -> list OutRow
}.

(** ** [np.unique], [dict] lookup, [np.argmin] *)

Fixpoint insert_unique (z : N) (l : list N) : list N :=
  match l with
  | [] => [z]
  | y :: l' =>
      if (z <? y)%N then z :: l
      else if (z =? y)%N then l
      else y :: insert_unique z l'
  end.

(** [np.unique]: the distinct values in ascending order. *)
Definition np_unique (l : list N) : list N := fold_right insert_unique [] l.

(** A [dict] with integer keys.  [tp in d] and [d[tp]] for a float [tp]
    find the key with the hash of [tp] that compares equal to it: the key
    whose integer is the value of [tp]. *)
Definition dict_get (d : list (N * float)) (tp : float) : option float :=
  match float_as_N tp with
  | Some n =>
      match find (fun kv => (fst kv =? n)%N) d with
      | Some kv => Some (snd kv)
      | None => None
      end
  | None => None
  end.

(** [np.argmin] on a float array: the first position of the minimum, a NaN
    counting as the minimum (the scan stops at the first NaN). *)
Fixpoint argmin_loop (mp : float) (min_ind i : nat) (l : list float) : nat :=
  match l with
  | [] => min_ind
  | x :: l' =>
      if negb (x >=? mp)
      then if is_nan x then i else argmin_loop x i (S i) l'
      else argmin_loop mp min_ind (S i) l'
  end.

Definition np_argmin (l : list float) : nat :=
  match l with
  | [] => 0%nat
  | x :: l' => if is_nan x then 0%nat else argmin_loop x 0 1 l'
  end.

(** ** Rhythm classifier *)

(** [categorize_rhythm(gamma)].  A chained comparison [a >= g >= b] is
    [(a >= g) and (g >= b)]. *)
Definition categorize_rhythm (gamma : float) : string :=
  if (0.15 >=? gamma) && (gamma >=? 0.03) then "damped"%string
  else if (-0.15 <=? gamma) && (gamma <=? -0.03) then "forced"%string
  else if (-0.03 <=? gamma) && (gamma <=? 0.03) then "harmonic"%string
  else if gamma >? 0.15 then "overexpressed"%string else "repressed"%string.

(** ** The pipeline *)

Section Pipeline.

Variable L : Libraries.

(** *** Waveform models, evaluated at one time value *)

Definition extended_harmonic_oscillator_at (t A gamma omega phi y : float) : float :=
  A * np_exp L (gamma * t) * np_cos L (omega * t + phi) + y.

Definition pseudo_square_wave_at (t A gamma omega_c phi y : float) : float :=
  A * np_exp L (gamma * t)
    * (np_sin L (omega_c * t + phi) + 0.25 * np_sin L (omega_c * (t * 3) + phi)) + y.

Definition pseudo_cycloid_wave_at (t A gamma omega_c phi y : float) : float :=
  A * np_exp L (gamma * t)
    * - (np_cos L (2 * omega_c * t + phi) + 4 * np_cos L (omega_c * t + phi)) + y.

(** [t_mod] of the source is computed and never used. *)
Definition transient_impulse_at (t tc A w y : float) : float :=
  A * np_sinc L ((t - tc) / w) + y.

(** [model(timepoints, *params)]: vectorised over the time values; a
    parameter array of the wrong length is a [TypeError]. *)
Definition call_model (m : Model) (t : list float) (p : list float) : option (list float) :=
  match m, p with
  | extended_harmonic_oscillator, [A; gamma; omega; phi; y] =>
      Some (map (fun t => extended_harmonic_oscillator_at t A gamma omega phi y) t)
  | pseudo_square_wave, [A; gamma; omega_c; phi; y] =>
      Some (map (fun t => pseudo_square_wave_at t A gamma omega_c phi y) t)
  | pseudo_cycloid_wave, [A; gamma; omega_c; phi; y] =>
      Some (map (fun t => pseudo_cycloid_wave_at t A gamma omega_c phi y) t)
  | transient_impulse, [tc; A; w; y] =>
      Some (map (fun t => transient_impulse_at t tc A w y) t)
  | _, _ => None
  end.

(** *** Variance estimator *)

(** Truth value of a float: [bool(x)] is [x != 0], so NaN is true. *)
Definition truthy (x : float) : bool := x !=? 0.

(** [calculate_variances(data)]. *)
Definition calculate_variances (data : Series) : option (list (N * float)) :=
  zt_times <- mapM label_zt (map fst data) ;;
  mapM (fun zt =>
          let zt_columns :=
            filter (fun e => match label_zt (fst e) with
                             | Some z => (z =? zt)%N
                             | None => false
                             end) data in
          group <- mapM cell_num (map snd zt_columns) ;;
          let zt_var := series_var L group in
          Some (zt, if truthy zt_var then zt_var else 0))
       (np_unique zt_times).

(** *** Multi-model fitter *)

(** Lines 116-117: the time of every column, rescaled to radians. *)
Definition timepoints_of (df_row : Series) : option (list float) :=
  raw <- mapM label_time (map fst df_row) ;;
  Some (map (fun t => t / 24 * (2 * math_pi)) raw).

(** Line 120: the variance map is looked up at the rescaled time value. *)
Definition weights_of (variances : list (N * float)) (timepoints : list float) : list float :=
  map (fun w => w + 0.000001)
      (map (fun tp => match dict_get variances tp with
                      | Some v => if v !=? 0 then 1 / v else 0
                      | None => 0
                      end) timepoints).

Definition harmonic_call (timepoints amplitudes weights : list float) : CurveFitCall :=
  let harmonic_initial_params :=
    [np_mean L amplitudes; 0; 0.5; 0; np_mean L amplitudes / 2] in
  let lower_bounds := [0; -0.5; 0.25; - math_pi; - np_max L amplitudes] in
  let upper_bounds := [np_max L amplitudes; 0.5; 1; math_pi; np_max L amplitudes] in
  {| f := extended_harmonic_oscillator;
     xdata := timepoints;
     ydata := amplitudes;
     bounds := (lower_bounds, upper_bounds);
     sigma := weights;
     p0 := harmonic_initial_params;
     maxfev := 1000000 |}.

Definition square_call (timepoints amplitudes weights : list float) : CurveFitCall :=
  let square_initial_params :=
    [np_mean L amplitudes; 0; 0.5; 0; np_mean L amplitudes] in
  let square_lower_bounds := [0; -0.5; 0.25; - math_pi; - np_max L amplitudes] in
  let square_upper_bounds := [np_max L amplitudes; 0.5; 1; math_pi; np_max L amplitudes] in
  {| f := pseudo_square_wave;
     xdata := timepoints;
     ydata := amplitudes;
     bounds := (square_lower_bounds, square_upper_bounds);
     sigma := weights;
     p0 := square_initial_params;
     maxfev := 1000000 |}.

Definition cycloid_call (timepoints amplitudes weights : list float) : CurveFitCall :=
  let cycloid_initial_params :=
    [np_mean L amplitudes; 0; 0.5; 0; np_max L amplitudes] in
  let cycloid_lower_bounds := [0; -0.5; 0.2; - math_pi; - np_max L amplitudes] in
  let cycloid_upper_bounds :=
    [np_max L amplitudes; 0.5; 1; math_pi; 4 * np_max L amplitudes] in
  {| f := pseudo_cycloid_wave;
     xdata := timepoints;
     ydata := amplitudes;
     bounds := (cycloid_lower_bounds, cycloid_upper_bounds);
     sigma := weights;
     p0 := cycloid_initial_params;
     maxfev := 1000000 |}.

Definition transient_call (timepoints amplitudes weights : list float) : CurveFitCall :=
  let transient_initial_params :=
    [np_mean L amplitudes; 0; 2; np_min L amplitudes] in
  let transient_lower_bounds := [neg_infinity; neg_infinity; neg_infinity; neg_infinity] in
  let transient_upper_bounds := [infinity; infinity; infinity; infinity] in
  {| f := transient_impulse;
     xdata := timepoints;
     ydata := amplitudes;
     bounds := (transient_lower_bounds, transient_upper_bounds);
     sigma := weights;
     p0 := transient_initial_params;
     maxfev := 100000 |}.

(** The body of a [try] block: fit, evaluate the model at the fitted
    parameters, sum the squared residuals. *)
Definition try_fit (call : CurveFitCall) : option Fit :=
  ' (popt, pcov) <- curve_fit L call ;;
  fitted <- call_model (f call) (xdata call) popt ;;
  let residuals := map2 PrimFloat.sub (ydata call) fitted in
  Some {| params := Params popt;
          covariance := Cov pcov;
          fitted_values := fitted;
          sse := np_sum L (map (fun r => r * r) residuals) |}.

(** The [except:] branch. *)
Definition fallback (len_df_row : nat) : Fit :=
  {| params := NaNParams;
     covariance := NaNCov;
     fitted_values := repeat 0 len_df_row;
     sse := infinity |}.

Definition try_except (call : CurveFitCall) (len_df_row : nat) : Fit :=
  match try_fit call with
  | Some fit => fit
  | None => fallback len_df_row
  end.

(** The inputs shared by the four fits (lines 116-120).  [np.max] of an
    empty array raises. *)
Definition fit_inputs (df_row : Series)
  : option (list float * list float * list float) :=
  timepoints <- timepoints_of df_row ;;
  amplitudes <- mapM cell_num (map snd df_row) ;;
  variances <- calculate_variances df_row ;;
  let weights := weights_of variances timepoints in
  match amplitudes with
  | [] => None
  | _ => Some (timepoints, amplitudes, weights)
  end.

(** The four calls of [curve_fit], in the order of the source. *)
Definition curve_fit_calls (df_row : Series) : option (list CurveFitCall) :=
  ' (timepoints, amplitudes, weights) <- fit_inputs df_row ;;
  Some [harmonic_call timepoints amplitudes weights;
        square_call timepoints amplitudes weights;
        cycloid_call timepoints amplitudes weights;
        transient_call timepoints amplitudes weights].

(** The four [try]/[except] blocks (lines 122-221). *)
Definition fit_all (df_row : Series) : option (Fit * Fit * Fit * Fit) :=
  ' (timepoints, amplitudes, weights) <- fit_inputs df_row ;;
  let n := List.length df_row in
  Some (try_except (harmonic_call timepoints amplitudes weights) n,
        try_except (square_call timepoints amplitudes weights) n,
        try_except (cycloid_call timepoints amplitudes weights) n,
        try_except (transient_call timepoints amplitudes weights) n).

Definition sse_values (fits : Fit * Fit * Fit * Fit) : list float :=
  let '(harmonic, square, cycloid, transient) := fits in
  [sse harmonic; sse square; sse cycloid; sse transient].

(** Lines 223-247. *)
Definition best_fit (fits : Fit * Fit * Fit * Fit)
  : string * PyParams * PyCov * list float :=
  let '(harmonic, square, cycloid, transient) := fits in
  let best_fit_index := np_argmin (sse_values fits) in
  if (best_fit_index =? 0)%nat then
    ("harmonic_oscillator"%string, params harmonic, covariance harmonic,
     fitted_values harmonic)
  else if (best_fit_index =? 1)%nat then
    ("square_waveform"%string, params square, covariance square,
     fitted_values square)
  else if (best_fit_index =? 2)%nat then
    ("cycloid"%string, params cycloid, covariance cycloid, fitted_values cycloid)
  else
    ("transient"%string, params transient, covariance transient,
     fitted_values transient).

(** [fit_best_waveform(df_row)]. *)
Definition fit_best_waveform (df_row : Series)
  : option (string * PyParams * PyCov * list float) :=
  fits <- fit_all df_row ;;
  Some (best_fit fits).

(** *** Orchestrator *)

(** [params[1]]: [np.nan] is not subscriptable. *)
Definition getitem1 (p : PyParams) : option float :=
  match p with
  | NaNParams => None
  | Params popt => nth_error popt 1
  end.

(** The body of the loop of [get_pycycle] for one row: the entries
    appended to [pvals], [osc_type] and [parameters].  The progress line
    it prints is not part of the result. *)
Definition feature_result (df_row : Series) : option (float * Oscillation * PyParams) :=
  ' (waveform, params, covariance, fitted_values) <- fit_best_waveform df_row ;;
  values <- mapM cell_num (map snd df_row) ;;
  let '(tau, p_value) := kendalltau L fitted_values values in
  oscillation <-
    (if p_value <? 0.05 then
       if String.eqb waveform "harmonic_oscillator" then
         gamma <- getitem1 params ;; Some (Category (categorize_rhythm gamma))
       else Some (Category waveform)
     else Some NoCall) ;;
  Some (p_value, oscillation, params).

(** [df.iloc[0, 0]]: an [IndexError] on a table without rows or columns. *)
Definition iloc_0_0 (df : DataFrame) : option Cell :=
  match df_rows df with
  | (_, c :: _) :: _ => Some c
  | _ => None
  end.

Definition is_str (c : Cell) : bool :=
  match c with Str _ => true | Num _ => false end.

(** [df.set_index(df.columns.tolist()[0])]. *)
Definition set_index_first (df : DataFrame) : DataFrame :=
  {| df_columns := tl (df_columns df);
     df_rows := map (fun r => match snd r with
                              | c :: cs => (Ix c, cs)
                              | [] => r
                              end) (df_rows df) |}.

(** Lines 271-272. *)
Definition detect_index (df : DataFrame) : option DataFrame :=
  c <- iloc_0_0 df ;;
  Some (if is_str c then set_index_first df else df).

(** [df.iloc[i, :]]. *)
Definition iloc_row (df : DataFrame) (r : IndexLabel * list Cell) : Series :=
  combine (df_columns df) (snd r).

(** The rows of a table given by its five columns. *)
Fixpoint rows_of (index : list IndexLabel) (pvals corr_pvals : list float)
    (osc_type : list Oscillation) (parameters : list PyParams) : list OutRow :=
  match index, pvals, corr_pvals, osc_type, parameters with
  | ix :: index', p :: pvals', q :: corr_pvals', o :: osc_type', prm :: parameters' =>
      {| Feature := ix; p_val := p; corr_p_val := q; Type_ := o; parameters := prm |}
      :: rows_of index' pvals' corr_pvals' osc_type' parameters'
  | _, _, _, _, _ => []
  end.

(** [pd.DataFrame({...})]: columns of unequal length are a [ValueError].
    The index and the three lists filled by the loop have one entry per
    row; the corrected p-values come from the library. *)
Definition make_df_out (index : list IndexLabel) (pvals corr_pvals : list float)
    (osc_type : list Oscillation) (parameters : list PyParams) : option (list OutRow) :=
  if (List.length corr_pvals =? List.length index)%nat
  then Some (rows_of index pvals corr_pvals osc_type parameters)
  else None.

(** [get_pycycle(df)]. *)
Definition get_pycycle (df : DataFrame) : option (list OutRow) :=
  df <- detect_index df ;;
  results <- mapM (fun r => feature_result (iloc_row df r)) (df_rows df) ;;
  let pvals := map (fun x => fst (fst x)) results in
  let osc_type := map (fun x => snd (fst x)) results in
  let parameters := map snd results in
  let corr_pvals := multipletests L pvals in
  df_out <- make_df_out (map fst (df_rows df)) pvals corr_pvals osc_type parameters ;;
  Some (sort_values L corr_p_val (sort_values L p_val df_out)).

End Pipeline.

(** ** Contracts of the library functions *)

(** Ascending order with undefined values last, as [sort_values] leaves a
    column: [a] may stand before [b]. *)
Definition na_last_le (a b : float) : bool := is_nan b || (a <=? b).

Definition ascending (key : OutRow -> float) (l : list OutRow) : Prop :=
  StronglySorted (fun r s => na_last_le (key r) (key s) = true) l.

(** [sort_values] reorders the rows into ascending order of the column.
    Nothing is said about rows with equal values: the default [kind] is
    [quicksort], which pandas documents as not stable. *)
Definition sort_values_contract (L : Libraries) : Prop :=
  forall key l,
    Permutation l (sort_values L key l) /\ ascending key (sort_values L key l).

(** [kendalltau] of a constant first sequence has an undefined p-value. *)
Definition kendalltau_contract (L : Libraries) : Prop :=
  forall c n y, is_nan (snd (kendalltau L (repeat c n) y)) = true.

(** [multipletests] returns one corrected p-value per p-value. *)
Definition multipletests_contract (L : Libraries) : Prop :=
  forall pvals, List.length (multipletests L pvals) = List.length pvals.



(** [Series.var(ddof=1)] of fewer than two values is undefined. *)
Definition series_var_contract (L : Libraries) : Prop :=
  forall group, (List.length group < 2)%nat -> is_nan (series_var L group) = true.

(** ** The spec's reading of the tie order, for comparison with the code *)

(** Rows with equal corrected p-value stand in ascending order of raw
    p-value. *)
Definition tie_order_by_raw (out : list OutRow) : Prop :=
  ForallOrdPairs (fun r s => (corr_p_val r =? corr_p_val s) = true ->
                             na_last_le (p_val r) (p_val s) = true) out.

(** ** The spec's reading of the weights, for comparison with the code *)

(** The weight array as the spec words it: the variance map is consulted
    at the column's raw timepoint. *)
Definition weights_by_raw_timepoint (variances : list (N * float)) (zt_times : list N)
  : list float :=
  map (fun w => w + 0.000001)
      (map (fun zt => match find (fun kv => (fst kv =? zt)%N) variances with
                      | Some kv => if snd kv !=? 0 then 1 / snd kv else 0
                      | None => 0
                      end) zt_times).

(** ** Stand-ins for the library functions

    Simple executable versions, used to run the pipeline on concrete tables. *)

Module Reference.

Definition sum (l : list float) : float := fold_left PrimFloat.add l 0.

Definition count (l : list float) : float := float_of_N (N.of_nat (List.length l)).

Definition mean (l : list float) : float := sum l / count l.

Definition maximum (l : list float) : float :=
  match l with
  | [] => nan
  | x :: l' => fold_left (fun a b => if a <? b then b else a) l' x
  end.

Definition minimum (l : list float) : float :=
  match l with
  | [] => nan
  | x :: l' => fold_left (fun a b => if b <? a then b else a) l' x
  end.

(** Two-pass unbiased sample variance; undefined below two values. *)
Definition sample_var (l : list float) : float :=
  if (List.length l <? 2)%nat then nan
  else
    let avg := mean l in
    sum (map (fun x => (avg - x) * (avg - x)) l) / (count l - 1).

Definition is_constant (l : list float) : bool :=
  match l with
  | [] => true
  | x :: l' => forallb (fun y => PrimFloat.Leibniz.eqb x y) l'
  end.

(** A rank test that only knows the degenerate case; otherwise the
    p-value is read off the observed sequence by [p]. *)
Definition rank_test (p : list float -> float) (x y : list float) : float * float :=
  if is_constant x then (nan, nan) else (1, p y).

Section InsertionSort.
Variable key : OutRow -> float.
(** [stay y a]: [y], already placed, stays before the new row [a]. *)
Variable stay : float -> float -> bool.

Fixpoint insert (a : OutRow) (l : list OutRow) : list OutRow :=
  match l with
  | [] => [a]
  | y :: l' => if stay (key y) (key a) then y :: insert a l' else a :: l
  end.

Definition insertion_sort (l : list OutRow) : list OutRow := fold_right insert [] l.
End InsertionSort.

(** Rows with equal keys keep their order. *)
Definition stable_sort (key : OutRow -> float) : list OutRow -> list OutRow :=
  insertion_sort key (fun y a => negb (na_last_le a y)).

(** Rows with equal keys end up in reverse order. *)
Definition reversing_sort (key : OutRow -> float) : list OutRow -> list OutRow :=
  insertion_sort key (fun y a => na_last_le y a).

(** A solver that never converges, and one that returns its initial guess. *)
Definition never_fits (call : CurveFitCall) : option (list float * list (list float)) :=
  None.

Definition keeps_p0 (call : CurveFitCall) : option (list float * list (list float)) :=
  Some (p0 call, []).

(** A solver that returns its initial guess and, in place of the
    covariance, the [sigma] it was handed. *)
Definition reports_sigma (call : CurveFitCall) : option (list float * list (list float)) :=
  Some (p0 call, [sigma call]).

(** A solver that fails on the harmonic model only. *)
Definition fails_on_harmonic (call : CurveFitCall)
  : option (list float * list (list float)) :=
  match f call with
  | extended_harmonic_oscillator => None
  | _ => Some (p0 call, [])
  end.

(** Leading terms of the power series, enough to give fitted sequences
    that vary with time. *)
Definition exp1 (x : float) : float := 1 + x.
Definition cos2 (x : float) : float := 1 - x * x / 2.
Definition sin1 (x : float) : float := x.
Definition sinc2 (x : float) : float := 1 - (math_pi * x) * (math_pi * x) / 6.


(** The p-value of a feature read off its first observation, and a
    correction that sends every p-value to 1. *)
Definition first_percent (y : list float) : float := hd 0 y / 100.

Definition all_to_one (pvals : list float) : list float := map (fun _ => 1) pvals.

Definition lib (fit : CurveFitCall -> option (list float * list (list float)))
    (p : list float -> float) (correct : list float -> list float)
    (sort : (OutRow -> float) -> list OutRow -> list OutRow) : Libraries :=
  {| np_exp := exp1;
     np_cos := cos2;
     np_sin := sin1;
     np_sinc := sinc2;
     np_mean := mean;
     np_max := maximum;
     np_min := minimum;
     np_sum := sum;
     series_var := sample_var;
     curve_fit := fit;
     kendalltau := rank_test p;
     multipletests := correct;
     sort_values := sort |}.

(** Two features; the first column holds their names. *)
Definition two_genes : DataFrame :=
  {| df_columns := [Other "Gene"; ZT_C 0 1; ZT_C 0 2; ZT_C 6 1; ZT_C 6 2; ZT_C 12 1];
     df_rows := [(RangeIx 0, [Str "geneA"; Num 5; Num 7; Num 2; Num 4; Num 2]);
                 (RangeIx 1, [Str "geneB"; Num 1; Num 3; Num 6; Num 8; Num 9])] |}.

End Reference.

(** ** Vocabulary of the statements *)

(** [k] is the position of the first minimum of [l]. *)
Definition first_min (l : list float) (k : nat) : Prop :=
  (k < List.length l)%nat /\
  (forall j, (j < List.length l)%nat -> (nth k l 0 <=? nth j l 0) = true) /\
  (forall j, (j < k)%nat -> (nth k l 0 <? nth j l 0) = true).

Definition fits_list (fits : Fit * Fit * Fit * Fit) : list Fit :=
  let '(harmonic, square, cycloid, transient) := fits in
  [harmonic; square; cycloid; transient].

Definition waveform_names : list string :=
  ["harmonic_oscillator"; "square_waveform"; "cycloid"; "transient"]%string.

(** The feature identifiers of a table: its index after the first column
    has been taken as the index when its first cell is text. *)
Definition feature_ids (df : DataFrame) : option (list IndexLabel) :=
  df' <- detect_index df ;; Some (map fst (df_rows df')).

(** An entry of a row that makes the fitter raise: one of the two
    extractions fails on its label, or its cell is not a number. *)
Definition unreadable (e : Label * Cell) : Prop :=
  label_time (fst e) = None \/ label_zt (fst e) = None \/ cell_num (snd e) = None.

(** A row with at least one column, on whose labels both extractions
    succeed and whose cells are all numbers. *)
Definition numeric_row (df_row : Series) : Prop :=
  df_row <> [] /\ Forall (fun e => ~ unreadable e) df_row.

(** A label of the documented shape [ZT<int>_C<int>]. *)
Definition documented_shape (l : Label) : Prop := exists zt c, l = ZT_C zt c.

(** The label of the mirrored damping coefficient. *)
Definition mirror (label : string) : string :=
  if String.eqb label "damped" then "forced"%string
  else if String.eqb label "forced" then "damped"%string
  else if String.eqb label "overexpressed" then "repressed"%string
  else if String.eqb label "repressed" then "overexpressed"%string
  else label.

(** The names a category of the output can have. *)
Definition category_names : list string :=
  ["damped"; "forced"; "harmonic"; "overexpressed"; "repressed";
   "square_waveform"; "cycloid"; "transient"]%string.

(** The number of parameters of a model. *)
Definition arity (m : Model) : nat :=
  match m with transient_impulse => 4%nat | _ => 5%nat end.

(** Line 117 at one raw timepoint. *)
Definition rescale (zt : N) : float := float_of_N zt / 24 * (2 * math_pi).

(** The raw timepoints below [n]. *)
Definition below (n : nat) : list N := map N.of_nat (seq 0 n).

(** Among the raw timepoints below [n], only 0 has a rescaled value that
    is an integer, and that integer is 0. *)
Definition only_zero_matches (n : nat) : bool :=
  forallb (fun zt => match float_as_N (rescale zt) with
                     | Some k => (zt =? 0)%N && (k =? 0)%N
                     | None => true
                     end)
          (below n).

(** The libraries with another solver. *)
Definition with_curve_fit (L : Libraries)
    (solver : CurveFitCall -> option (list float * list (list float))) : Libraries :=
  {| np_exp := np_exp L;
     np_cos := np_cos L;
     np_sin := np_sin L;
     np_sinc := np_sinc L;
     np_mean := np_mean L;
     np_max := np_max L;
     np_min := np_min L;
     np_sum := np_sum L;
     series_var := series_var L;
     curve_fit := solver;
     kendalltau := kendalltau L;
     multipletests := multipletests L;
     sort_values := sort_values L |}.

(** ** Sample rows *)

(** ZT0_C1=5, ZT0_C2=7, ZT6_C1=2, ZT6_C2=4. *)
Definition two_timepoints : Series :=
  [(ZT_C 0 1, Num 5); (ZT_C 0 2, Num 7); (ZT_C 6 1, Num 2); (ZT_C 6 2, Num 4)].

(** ZT0_C1=5. *)
Definition single_replicate : Series := [(ZT_C 0 1, Num 5)].

(** ZT0_C1=5, ZT0_C2=7, ZT6_C1=2, ZT6_C2=4, ZT12_C1=2. *)
Definition three_timepoints : Series :=
  [(ZT_C 0 1, Num 5); (ZT_C 0 2, Num 7); (ZT_C 6 1, Num 2); (ZT_C 6 2, Num 4);
   (ZT_C 12 1, Num 2)].

(** ** Order facts about binary64 comparison

    [x <? y] and [x <=? y] are specified by [SFcompare] on the decoded
    float, which is a lexicographic comparison of (class, exponent,
    mantissa).  [key] exposes that triple so that order reasoning reduces to
    linear integer arithmetic. *)

Module FloatOrder.

Definition triple : Type := (Z * Z * Z)%type.

Definition lex_lt (a b : triple) : Prop :=
  let '(a1, a2, a3) := a in
  let '(b1, b2, b3) := b in
  (a1 < b1 \/ (a1 = b1 /\ (a2 < b2 \/ (a2 = b2 /\ a3 < b3))))%Z.

Definition lex_le (a b : triple) : Prop :=
  let '(a1, a2, a3) := a in
  let '(b1, b2, b3) := b in
  (a1 < b1 \/ (a1 = b1 /\ (a2 < b2 \/ (a2 = b2 /\ a3 <= b3))))%Z.

Definition sf_key (f : spec_float) : option triple :=
  match f with
  | S754_nan => None
  | S754_zero _ => Some (0, 0, 0)%Z
  | S754_infinity s => Some (if s then (-2) else 2, 0, 0)%Z
  | S754_finite s m e =>
      Some (if s then (-1, - e, - Zpos m)%Z else (1, e, Zpos m)%Z)
  end.

Definition key (x : float) : option triple := sf_key (Prim2SF x).

Definition key_lt (x y : float) : Prop :=
  match key x, key y with
  | Some a, Some b => lex_lt a b
  | _, _ => False
  end.

Definition key_le (x y : float) : Prop :=
  match key x, key y with
  | Some a, Some b => lex_le a b
  | _, _ => False
  end.

(** Two finite floats of the same sign: compare exponents, then mantissas. *)
Ltac finite_case m1 e1 m2 e2 :=
  change (Pos.compare_cont Eq m1 m2) with (Pos.compare m1 m2);
  destruct (Z.compare_spec e1 e2);
  [ destruct (Pos.compare_spec m1 m2) | | ];
  cbn [CompOpp]; (split; [ try discriminate | try reflexivity ]); intros; lia.

Lemma SFltb_key (f g : spec_float) :
  SFltb f g = true <->
  match sf_key f, sf_key g with
  | Some a, Some b => lex_lt a b
  | _, _ => False
  end.
Proof.
  unfold SFltb.
  destruct f as [s1| s1 | | s1 m1 e1], g as [s2 | s2 | | s2 m2 e2]; simpl;
    try destruct s1; try destruct s2; simpl;
    try (split; [discriminate | lia]);
    try (split; [intros _; lia | reflexivity]);
    try (split; [discriminate | intros []]).
  - finite_case m1 e1 m2 e2.
  - finite_case m1 e1 m2 e2.
Qed.

Lemma SFleb_key (f g : spec_float) :
  SFleb f g = true <->
  match sf_key f, sf_key g with
  | Some a, Some b => lex_le a b
  | _, _ => False
  end.
Proof.
  unfold SFleb.
  destruct f as [s1| s1 | | s1 m1 e1], g as [s2 | s2 | | s2 m2 e2]; simpl;
    try destruct s1; try destruct s2; simpl;
    try (split; [discriminate | lia]);
    try (split; [intros _; lia | reflexivity]);
    try (split; [discriminate | intros []]).
  - finite_case m1 e1 m2 e2.
  - finite_case m1 e1 m2 e2.
Qed.

Lemma ltb_key (x y : float) : (x <? y) = true <-> key_lt x y.
Proof. rewrite ltb_spec. apply SFltb_key. Qed.

Lemma leb_key (x y : float) : (x <=? y) = true <-> key_le x y.
Proof. rewrite leb_spec. apply SFleb_key. Qed.

Lemma ltb_key_false (x y : float) : (x <? y) = false <-> ~ key_lt x y.
Proof. rewrite <- ltb_key. symmetry. apply Bool.not_true_iff_false. Qed.

Lemma leb_key_false (x y : float) : (x <=? y) = false <-> ~ key_le x y.
Proof. rewrite <- leb_key. symmetry. apply Bool.not_true_iff_false. Qed.

Lemma is_nan_key (x : float) : is_nan x = true <-> key x = None.
Proof.
  unfold is_nan, key. rewrite eqb_spec. unfold SFeqb.
  destruct (Prim2SF x) as [s | s | | s m e]; simpl;
    try destruct s; simpl; try (split; [discriminate | discriminate]).
  - split; reflexivity.
  - rewrite Z.compare_refl.
    change (Pos.compare_cont Eq m m) with (Pos.compare m m).
    rewrite Pos.compare_refl. cbn [CompOpp negb]. split; discriminate.
  - rewrite Z.compare_refl.
    change (Pos.compare_cont Eq m m) with (Pos.compare m m).
    rewrite Pos.compare_refl. cbn [negb]. split; discriminate.
Qed.

Lemma is_nan_key_false (x : float) :
  is_nan x = false <-> exists a, key x = Some a.
Proof.
  rewrite <- Bool.not_true_iff_false, is_nan_key.
  destruct (key x) as [a |].
  - split; [intros _; now exists a | discriminate].
  - split; [intros H; now elim H | intros [a H]; discriminate].
Qed.

(** Turn every float comparison in the context and the goal into a
    statement about keys, split the triples and call [lia]. *)
Ltac to_keys :=
  repeat match goal with
    | H : (_ <? _) = true |- _ => apply ltb_key in H
    | H : (_ <=? _) = true |- _ => apply leb_key in H
    | H : (_ <? _) = false |- _ => apply ltb_key_false in H
    | H : (_ <=? _) = false |- _ => apply leb_key_false in H
    | H : is_nan _ = true |- _ => apply is_nan_key in H
    | H : is_nan _ = false |- _ => apply is_nan_key_false in H; destruct H as [? H]
    | |- (_ <? _) = true => apply ltb_key
    | |- (_ <=? _) = true => apply leb_key
    | |- (_ <? _) = false => apply ltb_key_false
    | |- (_ <=? _) = false => apply leb_key_false
    | |- is_nan _ = true => apply is_nan_key
    end.

Ltac split_keys :=
  unfold key_lt, key_le in *;
  repeat match goal with
    | H : context [key _] |- _ => revert H
    end;
  repeat match goal with
    | |- context [key ?x] => destruct (key x) as [[[? ?] ?] |]
    end;
  intros;
  repeat match goal with
    | H : Some _ = Some _ |- _ => inversion H; clear H
    | H : None = Some _ |- _ => discriminate H
    | H : Some _ = None |- _ => discriminate H
    end;
  subst;
  cbv beta iota delta [lex_lt lex_le] in *.

Ltac float_order := to_keys; split_keys; solve [discriminate | tauto | lia].

Lemma leb_trans (x y z : float) :
  (x <=? y) = true -> (y <=? z) = true -> (x <=? z) = true.
Proof. intros. float_order. Qed.

Lemma ltb_leb (x y : float) : (x <? y) = true -> (x <=? y) = true.
Proof. intros. float_order. Qed.

Lemma leb_total (x y : float) :
  is_nan x = false -> is_nan y = false ->
  (x <=? y) = true \/ (y <? x) = true.
Proof.
  intros Hx Hy.
  destruct (x <=? y) eqn:E; [now left | right].
  float_order.
Qed.

End FloatOrder.

Module ClassifierFacts.
Import FloatOrder.

Lemma key_p003 : key 0.03 = Some (1, -58, 8646911284551352)%Z.
Proof. vm_compute. reflexivity. Qed.

Lemma key_p015 : key 0.15 = Some (1, -55, 5404319552844595)%Z.
Proof. vm_compute. reflexivity. Qed.

Lemma key_m003 : key (-0.03) = Some (-1, 58, -8646911284551352)%Z.
Proof. vm_compute. reflexivity. Qed.

Lemma key_m015 : key (-0.15) = Some (-1, 55, -5404319552844595)%Z.
Proof. vm_compute. reflexivity. Qed.

Ltac thresholds :=
  to_keys; unfold key_lt, key_le in *;
  rewrite ?key_p003, ?key_p015, ?key_m003, ?key_m015 in *;
  split_keys; solve [discriminate | tauto | lia].

Ltac decide_branch :=
  match goal with
  | |- context [if ?c then _ else _] =>
      let E := fresh "E" in
      destruct c eqn:E;
      [ try (exfalso; apply andb_prop in E; destruct E; thresholds)
      | try (exfalso; apply andb_false_iff in E; destruct E; thresholds) ]
  end.

End ClassifierFacts.

Import FloatOrder ClassifierFacts.

(** ** The rhythm classifier *)

(** C5. The classifier's five ranges: inclusive bounds for damped and
    forced, the open interval for harmonic, the two tails, and the four
    boundary samples of the spec with their mirror images. *)
Theorem categorize_rhythm_ranges :
  (forall g, (0.03 <=? g) = true -> (g <=? 0.15) = true ->
             categorize_rhythm g = "damped"%string) /\
  (forall g, (-0.15 <=? g) = true -> (g <=? -0.03) = true ->
             categorize_rhythm g = "forced"%string) /\
  (forall g, (-0.03 <? g) = true -> (g <? 0.03) = true ->
             categorize_rhythm g = "harmonic"%string) /\
  (forall g, (g >? 0.15) = true -> categorize_rhythm g = "overexpressed"%string) /\
  (forall g, (g <? -0.15) = true -> categorize_rhythm g = "repressed"%string) /\
  categorize_rhythm 0.03 = "damped"%string /\
  categorize_rhythm 0.15 = "damped"%string /\
  categorize_rhythm 0.029999 = "harmonic"%string /\
  categorize_rhythm 0.1500001 = "overexpressed"%string /\
  categorize_rhythm (-0.03) = "forced"%string /\
  categorize_rhythm (-0.15) = "forced"%string /\
  categorize_rhythm (-0.029999) = "harmonic"%string /\
  categorize_rhythm (-0.1500001) = "repressed"%string.
Proof.
  repeat split; try (vm_compute; reflexivity).
  - intros g H1 H2. unfold categorize_rhythm. rewrite H1, H2. reflexivity.
  - intros g H1 H2. unfold categorize_rhythm.
    decide_branch. rewrite H1, H2. reflexivity.
  - intros g H1 H2. unfold categorize_rhythm.
    decide_branch. decide_branch. decide_branch. reflexivity.
  - intros g H1. unfold categorize_rhythm.
    decide_branch. decide_branch. decide_branch. rewrite H1. reflexivity.
  - intros g H1. unfold categorize_rhythm.
    decide_branch. decide_branch. decide_branch.
    destruct (g >? 0.15) eqn:E2; [exfalso; thresholds | reflexivity].
Qed.

Lemma categorize_rhythm_ranges_witness :
  categorize_rhythm 0.1 = "damped"%string /\
  categorize_rhythm (-0.1) = "forced"%string /\
  categorize_rhythm 0.01 = "harmonic"%string /\
  categorize_rhythm 0.3 = "overexpressed"%string /\
  categorize_rhythm (-0.3) = "repressed"%string.
Proof.
  destruct categorize_rhythm_ranges as (D & F & H & O & R & _).
  split; [| split; [| split; [| split]]].
  - apply D; reflexivity.
  - apply F; reflexivity.
  - apply H; reflexivity.
  - apply O; reflexivity.
  - apply R; reflexivity.
Defined.

(** C10. [categorize_rhythm] returns one of its five labels on every
    float, and on NaN, where every range comparison is false, the label is
    'repressed'. *)
Theorem categorize_rhythm_total :
  (forall gamma,
      In (categorize_rhythm gamma)
         ["damped"; "forced"; "harmonic"; "overexpressed"; "repressed"]%string) /\
  (forall a b, (a <=? nan) = false /\ (nan <=? b) = false /\ (nan >? b) = false) /\
  categorize_rhythm nan = "repressed"%string.
Proof.
  split; [| split].
  - intro gamma. unfold categorize_rhythm.
    repeat match goal with
           | |- context [if ?c then _ else _] => destruct c
           end; simpl; tauto.
  - intros a b. assert (N : is_nan nan = true) by reflexivity.
    repeat split; float_order.
  - reflexivity.
Qed.

(** ** Auxiliary facts *)

Lemma mapM_length {A B : Type} (g : A -> option B) (l : list A) (r : list B) :
  mapM g l = Some r -> List.length r = List.length l.
Proof.
  revert r. induction l as [| a l IH]; intros r H; simpl in H.
  - injection H as <-. reflexivity.
  - destruct (g a) as [b |]; [| discriminate].
    destruct (mapM g l) as [bs |]; [| discriminate].
    injection H as <-. simpl. f_equal. apply IH. reflexivity.
Qed.

Lemma mapM_In {A B : Type} (g : A -> option B) (l : list A) (r : list B) (y : B) :
  mapM g l = Some r -> In y r -> exists x, In x l /\ g x = Some y.
Proof.
  revert r. induction l as [| a l IH]; intros r H Hy; simpl in H.
  - injection H as <-. destruct Hy.
  - destruct (g a) as [b |] eqn:Ea; [| discriminate].
    destruct (mapM g l) as [bs |]; [| discriminate].
    injection H as <-. destruct Hy as [<- | Hy].
    + exists a. split; [now left | assumption].
    + destruct (IH bs eq_refl Hy) as (x & Hx & Hg).
      exists x. split; [now right | assumption].
Qed.

Lemma mapM_Some {A B : Type} (g : A -> option B) (l : list A) :
  (forall x, In x l -> exists y, g x = Some y) -> exists r, mapM g l = Some r.
Proof.
  induction l as [| a l IH]; intros H; simpl.
  - now exists [].
  - destruct (H a (or_introl eq_refl)) as [b ->].
    destruct IH as [bs ->]; [intros x Hx; apply H; now right |].
    now exists (b :: bs).
Qed.

Lemma eqb_nan_l (x y : float) : is_nan x = true -> (x =? y) = false.
Proof.
  intros H. apply is_nan_key in H. unfold key in H.
  rewrite FloatAxioms.eqb_spec.
  destruct (Prim2SF x) as [s | s | | s m e]; try discriminate H;
    try (destruct s; discriminate H).
  reflexivity.
Qed.

Lemma truthy_nan (x : float) : is_nan x = true -> truthy x = true.
Proof. intros H. unfold truthy. now rewrite eqb_nan_l. Qed.

(** ** The variance estimator and the weights *)

(** The variance map holds, for each timepoint, the variance of its columns
    unless that variance is [0.0]: an undefined variance is kept. *)
Lemma calculate_variances_entry (L : Libraries) (data : Series)
    (variances : list (N * float)) (zt : N) (v : float) :
  calculate_variances L data = Some variances ->
  In (zt, v) variances ->
  exists group,
    mapM cell_num
         (map snd (filter (fun e => match label_zt (fst e) with
                                    | Some z => (z =? zt)%N
                                    | None => false
                                    end) data)) = Some group /\
    v = (if truthy (series_var L group) then series_var L group else 0).
Proof.
  unfold calculate_variances. intros H Hin.
  destruct (mapM label_zt (map fst data)) as [zt_times |]; [| discriminate].
  destruct (mapM_In _ _ _ _ H Hin) as (z & _ & Hz).
  destruct (mapM cell_num _) as [group |] eqn:G in Hz; [| discriminate].
  injection Hz as Hz1 Hz2. subst z v. exists group. split; [exact G | reflexivity].
Qed.

(** A timepoint measured in fewer than two columns is mapped to NaN. *)
Lemma calculate_variances_small_group (L : Libraries) (data : Series)
    (variances : list (N * float)) (zt : N) (v : float) :
  series_var_contract L ->
  calculate_variances L data = Some variances ->
  In (zt, v) variances ->
  (List.length (filter (fun e => match label_zt (fst e) with
                                 | Some z => (z =? zt)%N
                                 | None => false
                                 end) data) < 2)%nat ->
  is_nan v = true.
Proof.
  intros HL H Hin Hlen.
  destruct (calculate_variances_entry L data variances zt v H Hin) as (group & G & ->).
  assert (Hn : is_nan (series_var L group) = true).
  { apply HL. rewrite (mapM_length _ _ _ G), length_map. exact Hlen. }
  rewrite (truthy_nan _ Hn). exact Hn.
Qed.

(** A column whose rescaled time value equals no key of the variance map
    gets the bare constant as its weight, whatever the map records. *)
Lemma weights_of_unmatched (variances : list (N * float)) (timepoints : list float) :
  Forall (fun tp => dict_get variances tp = None) timepoints ->
  weights_of variances timepoints = map (fun _ => 0 + 0.000001) timepoints.
Proof.
  unfold weights_of. induction 1 as [| tp l Htp _ IH]; simpl.
  - reflexivity.
  - rewrite Htp. f_equal. exact IH.
Qed.

(** C1. On the row ZT0_C1=5, ZT0_C2=7, ZT6_C1=2, ZT6_C2=4 both timepoints
    have recorded variance 2, and the weights the fitter builds are
    1/2 + 1e-6 for the ZT0 columns but the bare 1e-6 for the ZT6 columns:
    the map is consulted at the rescaled time value, which only matches
    the key 0.  The weights read at the raw timepoint are 1/2 + 1e-6
    throughout. *)
Theorem weights_miss_recorded_variance :
  let L := Reference.lib Reference.never_fits (fun _ => 0.01) (fun l => l) Reference.stable_sort in
  calculate_variances L two_timepoints = Some [(0%N, 2); (6%N, 2)] /\
  timepoints_of two_timepoints
    = Some [0; 0; 6 / 24 * (2 * math_pi); 6 / 24 * (2 * math_pi)] /\
  fit_inputs L two_timepoints
    = Some ([0; 0; 6 / 24 * (2 * math_pi); 6 / 24 * (2 * math_pi)],
            [5; 7; 2; 4],
            [1 / 2 + 0.000001; 1 / 2 + 0.000001; 0.000001; 0.000001]) /\
  weights_by_raw_timepoint [(0%N, 2); (6%N, 2)] [0; 0; 6; 6]%N
    = [1 / 2 + 0.000001; 1 / 2 + 0.000001; 1 / 2 + 0.000001; 1 / 2 + 0.000001].
Proof. vm_compute. repeat split; reflexivity. Qed.

(** C3. On the one-column row ZT0_C1=5 the variance of the only group is
    undefined, and the variance map keeps NaN for it instead of 0 (NaN is
    a true value in [zt_var if zt_var else 0]); the weight of the column
    is NaN as well. *)
Theorem single_replicate_variance_is_nan :
  let L := Reference.lib Reference.never_fits (fun _ => 0.01) (fun l => l) Reference.stable_sort in
  is_nan (series_var L [5]) = true /\
  calculate_variances L single_replicate = Some [(0%N, nan)] /\
  fit_inputs L single_replicate = Some ([0], [5], [nan]).
Proof. vm_compute. repeat split; reflexivity. Qed.

(** ** The calls of the solver *)

(** The four fits are the four [try]/[except] blocks applied to the four
    calls, and every call is handed the weight array itself as [sigma]. *)
Lemma fit_all_calls (L : Libraries) (df_row : Series) (t a w : list float) :
  fit_inputs L df_row = Some (t, a, w) ->
  exists h s c tr,
    curve_fit_calls L df_row = Some [h; s; c; tr] /\
    fit_all L df_row
      = Some (try_except L h (List.length df_row), try_except L s (List.length df_row),
              try_except L c (List.length df_row), try_except L tr (List.length df_row)) /\
    (f h, f s, f c, f tr)
      = (extended_harmonic_oscillator, pseudo_square_wave, pseudo_cycloid_wave,
         transient_impulse) /\
    Forall (fun call => xdata call = t /\ ydata call = a /\ sigma call = w) [h; s; c; tr].
Proof.
  intros H. unfold curve_fit_calls, fit_all. rewrite H.
  eexists _, _, _, _. split; [reflexivity |]. split; [reflexivity |].
  split; [reflexivity |]. repeat constructor.
Qed.

(** C2. On the row ZT0_C1=5, ZT0_C2=7, ZT6_C1=2, ZT6_C2=4 the weights are
    1/2 + 1e-6 for the ZT0 columns and 1e-6 for the ZT6 columns.  Run with
    a solver that reports the [sigma] it is handed, each of the four fits
    and the selected fit report the weight array itself, not its
    reciprocal: the columns of larger weight are handed the larger
    uncertainty, 1/2 + 1e-6 where the reciprocal is above 1, and so have
    less influence on the fit, not more. *)
Theorem sigma_is_weights_not_reciprocal :
  let L := Reference.lib Reference.reports_sigma (fun _ => 0.01) (fun l => l)
             Reference.stable_sort in
  let w := [1 / 2 + 0.000001; 1 / 2 + 0.000001; 0.000001; 0.000001] in
  option_map snd (fit_inputs L two_timepoints) = Some w /\
  option_map (fun fits => map covariance (fits_list fits)) (fit_all L two_timepoints)
    = Some [Cov [w]; Cov [w]; Cov [w]; Cov [w]] /\
  option_map (fun best => snd (fst best)) (fit_best_waveform L two_timepoints)
    = Some (Cov [w]) /\
  (nth 2 w 0 <? nth 0 w 0) = true /\
  (nth 0 w 0 <? 1) = true /\
  (1 <? nth 0 (map (fun x => 1 / x) w) 0) = true.
Proof. vm_compute. repeat split; reflexivity. Qed.

(** ** Best-fit selection *)

Lemma leb_refl (x : float) : is_nan x = false -> (x <=? x) = true.
Proof. intros. float_order. Qed.

Lemma ltb_leb_trans (x y z : float) :
  (x <? y) = true -> (y <=? z) = true -> (x <? z) = true.
Proof. intros. float_order. Qed.

Lemma not_leb_ltb (x y : float) :
  is_nan x = false -> is_nan y = false -> (x <=? y) = false -> (y <? x) = true.
Proof. intros. float_order. Qed.

Lemma argmin_loop_first_min (l pre : list float) (mp : float) (min_ind : nat) :
  Forall (fun x => is_nan x = false) (pre ++ l) ->
  first_min pre min_ind ->
  nth min_ind pre 0 = mp ->
  first_min (pre ++ l) (argmin_loop mp min_ind (List.length pre) l).
Proof.
  revert pre mp min_ind.
  induction l as [| x l IH]; intros pre mp min_ind Hnan Hmin Hmp; simpl.
  - rewrite app_nil_r. exact Hmin.
  - destruct Hmin as (Hlt & Hle & Hfirst).
    assert (Hx : is_nan x = false).
    { rewrite Forall_forall in Hnan. apply Hnan, in_elt. }
    assert (Hnmp : is_nan mp = false).
    { rewrite Forall_forall in Hnan. apply Hnan. rewrite <- Hmp.
      apply in_or_app. left. now apply nth_In. }
    replace (pre ++ x :: l) with ((pre ++ [x]) ++ l) in *
      by (rewrite <- app_assoc; reflexivity).
    replace (S (List.length pre)) with (List.length (pre ++ [x]))
      by (rewrite length_app; simpl; lia).
    destruct (x >=? mp) eqn:E; simpl.
    + (* the minimum so far stays *)
      apply IH; [exact Hnan | | rewrite app_nth1 by exact Hlt; exact Hmp].
      split; [rewrite length_app; simpl; lia |]. split.
      * intros j Hj. rewrite length_app in Hj. simpl in Hj.
        rewrite (app_nth1 pre [x] 0 Hlt), Hmp.
        destruct (Nat.eq_dec j (List.length pre)) as [-> | Hne].
        -- rewrite app_nth2, Nat.sub_diag by lia. exact E.
        -- rewrite app_nth1 by lia. rewrite <- Hmp. apply Hle. lia.
      * intros j Hj. rewrite !app_nth1 by lia. now apply Hfirst.
    + (* [x] is smaller than everything before it *)
      rewrite Hx.
      apply IH; [exact Hnan | | rewrite app_nth2, Nat.sub_diag by lia; reflexivity].
      assert (Hxmp : (x <? mp) = true) by (apply not_leb_ltb; assumption).
      split; [rewrite length_app; simpl; lia |]. split.
      * intros j Hj. rewrite length_app in Hj. simpl in Hj.
        rewrite app_nth2, Nat.sub_diag by lia. simpl.
        destruct (Nat.eq_dec j (List.length pre)) as [-> | Hne].
        -- rewrite app_nth2, Nat.sub_diag by lia. simpl. now apply leb_refl.
        -- rewrite app_nth1 by lia. apply ltb_leb.
           apply ltb_leb_trans with mp; [exact Hxmp |].
           rewrite <- Hmp. apply Hle. lia.
      * intros j Hj. rewrite app_nth2, Nat.sub_diag by lia. simpl.
        rewrite app_nth1 by exact Hj.
        apply ltb_leb_trans with mp; [exact Hxmp |].
        rewrite <- Hmp. apply Hle. lia.
Qed.

(** On an array without NaN, [np.argmin] is the position of the first
    minimum. *)
Lemma np_argmin_first_min (l : list float) :
  l <> [] -> Forall (fun x => is_nan x = false) l -> first_min l (np_argmin l).
Proof.
  destruct l as [| x l]; [congruence |]. intros _ Hnan. simpl.
  assert (Hx : is_nan x = false) by (inversion Hnan; assumption).
  rewrite Hx.
  apply (argmin_loop_first_min l [x] x 0 Hnan); [| reflexivity].
  split; [simpl; lia |]. split.
  - intros j Hj. simpl in Hj. replace j with 0%nat by lia. simpl. now apply leb_refl.
  - intros j Hj. lia.
Qed.

Lemma argmin_loop_lt (l : list float) (mp : float) (min_ind i : nat) :
  (min_ind < i)%nat -> (argmin_loop mp min_ind i l < i + List.length l)%nat.
Proof.
  revert mp min_ind i. induction l as [| x l IH]; intros mp min_ind i H; simpl.
  - lia.
  - destruct (negb (x >=? mp)).
    + destruct (is_nan x); [lia |].
      specialize (IH x i (S i)). lia.
    + specialize (IH mp min_ind (S i)). lia.
Qed.

Lemma np_argmin_lt (l : list float) : l <> [] -> (np_argmin l < List.length l)%nat.
Proof.
  destruct l as [| x l]; [congruence |]. intros _. simpl.
  destruct (is_nan x); [lia |].
  pose proof (argmin_loop_lt l x 0 1). lia.
Qed.

(** The if/elif chain returns the entries of the model at the position
    [np.argmin] computed. *)
Lemma best_fit_nth (fits : Fit * Fit * Fit * Fit) (d : Fit) :
  let i := np_argmin (sse_values fits) in
  best_fit fits
    = (nth i waveform_names ""%string, params (nth i (fits_list fits) d),
       covariance (nth i (fits_list fits) d), fitted_values (nth i (fits_list fits) d)).
Proof.
  destruct fits as [[[h s] c] t]. intro i.
  assert (Hi : (i < 4)%nat).
  { subst i. apply (np_argmin_lt [sse h; sse s; sse c; sse t]). discriminate. }
  unfold best_fit. fold i.
  destruct i as [| [| [| [| i]]]]; try reflexivity. lia.
Qed.

Lemma fit_all_inv (L : Libraries) (df_row : Series) (fits : Fit * Fit * Fit * Fit) :
  fit_all L df_row = Some fits ->
  exists t a w h s c tr,
    fit_inputs L df_row = Some (t, a, w) /\
    curve_fit_calls L df_row = Some [h; s; c; tr] /\
    fits = (try_except L h (List.length df_row), try_except L s (List.length df_row),
            try_except L c (List.length df_row), try_except L tr (List.length df_row)) /\
    (f h, f s, f c, f tr)
      = (extended_harmonic_oscillator, pseudo_square_wave, pseudo_cycloid_wave,
         transient_impulse) /\
    Forall (fun call => xdata call = t /\ ydata call = a /\ sigma call = w) [h; s; c; tr].
Proof.
  intros H.
  destruct (fit_inputs L df_row) as [[[t a] w] |] eqn:E.
  - destruct (fit_all_calls L df_row t a w E) as (h & s & c & tr & Hc & Hf & Hm & Hs).
    rewrite Hf in H. injection H as <-.
    exists t, a, w, h, s, c, tr. repeat split; try assumption.
  - unfold fit_all in H. rewrite E in H. discriminate.
Qed.

Lemma fit_inputs_values (L : Libraries) (df_row : Series) (t a w : list float) :
  fit_inputs L df_row = Some (t, a, w) -> mapM cell_num (map snd df_row) = Some a.
Proof.
  unfold fit_inputs. intros H.
  destruct (timepoints_of df_row); [| discriminate].
  destruct (mapM cell_num (map snd df_row)) as [a' |]; [| discriminate].
  destruct (calculate_variances L df_row); [| discriminate].
  destruct a'; [discriminate |]. injection H as _ <- _. reflexivity.
Qed.

Lemma ltb_nan_l (x y : float) : is_nan x = true -> (x <? y) = false.
Proof. intros. float_order. Qed.


Lemma rank_test_contract fit p correct sort :
  kendalltau_contract (Reference.lib fit p correct sort).
Proof.
  intros c n y. simpl. unfold Reference.rank_test.
  assert (E : Reference.is_constant (repeat c n) = true).
  { destruct n as [| n]; [reflexivity |]. simpl.
    induction n as [| n IH]; [reflexivity |]. simpl. rewrite IH.
    rewrite andb_true_r. now apply FloatAxioms.Leibniz.eqb_spec. }
  rewrite E. reflexivity.
Qed.

(** ** Failed fits *)

Lemma leb_not_nan (x y : float) :
  (x <=? y) = true -> is_nan x = false /\ is_nan y = false.
Proof.
  intros H. split.
  - destruct (is_nan x) eqn:E; [exfalso; float_order | reflexivity].
  - destruct (is_nan y) eqn:E; [exfalso; float_order | reflexivity].
Qed.

Lemma argmin_loop_not_nan (l pre : list float) (mp : float) (min_ind : nat) :
  is_nan (nth (argmin_loop mp min_ind (List.length pre) l) (pre ++ l) 0) = false ->
  Forall (fun x => is_nan x = false) l.
Proof.
  revert pre mp min_ind.
  induction l as [| x l IH]; intros pre mp min_ind H; [constructor |].
  simpl in H.
  replace (pre ++ x :: l) with ((pre ++ [x]) ++ l) in H
    by (rewrite <- app_assoc; reflexivity).
  replace (S (List.length pre)) with (List.length (pre ++ [x])) in H
    by (rewrite length_app; simpl; lia).
  destruct (x >=? mp) eqn:E; simpl in H.
  - constructor; [apply (leb_not_nan mp x E) | exact (IH _ _ _ H)].
  - destruct (is_nan x) eqn:Ex.
    + rewrite app_nth1 in H by (rewrite length_app; simpl; lia).
      rewrite app_nth2, Nat.sub_diag in H by lia.
      simpl in H. congruence.
    + constructor; [exact Ex | exact (IH _ _ _ H)].
Qed.

(** When the selected entry is not NaN, the array holds no NaN and the
    selected position is that of the first minimum. *)
Lemma np_argmin_not_nan (l : list float) :
  l <> [] ->
  is_nan (nth (np_argmin l) l 0) = false ->
  Forall (fun x => is_nan x = false) l /\ first_min l (np_argmin l).
Proof.
  intros Hne H.
  assert (Hall : Forall (fun x => is_nan x = false) l).
  { destruct l as [| x l]; [congruence |]. simpl in H.
    destruct (is_nan x) eqn:Ex; [simpl in H; congruence |].
    constructor; [exact Ex |].
    apply (argmin_loop_not_nan l [x] x 0). exact H. }
  split; [exact Hall | now apply np_argmin_first_min].
Qed.

Lemma ltb_infinity_l (y : float) : (infinity <? y) = false.
Proof.
  destruct (infinity <? y) eqn:E; [exfalso | reflexivity].
  apply ltb_key in E. unfold key_lt, key in E.
  change (Prim2SF infinity) with (S754_infinity false) in E.
  destruct (Prim2SF y) as [s | s | | s m e]; simpl in E; try destruct s;
    unfold lex_lt in E; lia.
Qed.

Lemma leb_infinity_ltb (y : float) : (infinity <=? y) = true -> (y <? infinity) = false.
Proof. intros. float_order. Qed.

(** A selected entry equal to +infinity is the first one, and no entry
    is below +infinity. *)
Lemma np_argmin_infinity (l : list float) :
  l <> [] ->
  nth (np_argmin l) l 0 = infinity ->
  np_argmin l = 0%nat /\
  (forall j, (j < List.length l)%nat -> (nth j l 0 <? infinity) = false).
Proof.
  intros Hne H.
  destruct (np_argmin_not_nan l Hne) as (_ & Hk & Hle & Hfirst).
  { rewrite H. reflexivity. }
  rewrite H in Hle, Hfirst. split.
  - destruct (np_argmin l) as [| k]; [reflexivity |].
    specialize (Hfirst 0%nat ltac:(lia)). rewrite ltb_infinity_l in Hfirst. discriminate.
  - intros j Hj. apply leb_infinity_ltb, Hle, Hj.
Qed.

Lemma sse_values_not_nil (fits : Fit * Fit * Fit * Fit) : sse_values fits <> [].
Proof. destruct fits as [[[h s] c] t]. discriminate. Qed.

(** The harmonic fit that left a parameter array left one with a second
    entry. *)
Lemma harmonic_params_indexable (L : Libraries) (call : CurveFitCall) (n : nat) :
  f call = extended_harmonic_oscillator ->
  (exists gamma, getitem1 (params (try_except L call n)) = Some gamma) \/
  try_except L call n = fallback n.
Proof.
  intros Hf. unfold try_except, try_fit.
  destruct (curve_fit L call) as [[popt pcov] |]; [| now right].
  rewrite Hf.
  destruct popt as [| A [| gamma [| omega [| phi [| y [| z popt]]]]]];
    try (now right).
  left. now exists gamma.
Qed.

(** The loop body returns for every row on which the inputs of the fits
    are defined, whatever the solver does. *)
Lemma feature_result_defined (L : Libraries) (df_row : Series) (t a w : list float) :
  kendalltau_contract L ->
  fit_inputs L df_row = Some (t, a, w) ->
  exists r, feature_result L df_row = Some r.
Proof.
  intros HK Hin.
  destruct (fit_all_calls L df_row t a w Hin) as (h & s & c & tr & _ & Hf & Hm & _).
  injection Hm as Hh _ _ _.
  unfold feature_result, fit_best_waveform. rewrite Hf.
  rewrite (fit_inputs_values L df_row t a w Hin).
  unfold best_fit.
  set (i := np_argmin _).
  destruct (i =? 0)%nat.
  - destruct (harmonic_params_indexable L h (List.length df_row) Hh) as [[gamma Hg] | Hfb].
    + destruct (kendalltau L _ a) as [tau p].
      destruct (p <? 0.05); [| eauto].
      simpl. rewrite Hg. eauto.
    + rewrite Hfb. simpl.
      pose proof (HK 0 (List.length df_row) a) as Hp.
      destruct (kendalltau L _ a) as [tau p]. simpl in Hp.
      rewrite (ltb_nan_l p 0.05 Hp). eauto.
  - destruct (i =? 1)%nat; [| destruct (i =? 2)%nat];
      destruct (kendalltau L _ a) as [tau p]; destruct (p <? 0.05); simpl; eauto.
Qed.

(** C7, as stated, fails: with a solver that never converges the harmonic
    fit fails and is nevertheless the selected one. *)
Lemma failed_fit_can_be_selected :
  let L := Reference.lib Reference.never_fits (fun _ => 0.01) (fun l => l) Reference.stable_sort in
  exists h calls,
    curve_fit_calls L three_timepoints = Some (h :: calls) /\
    f h = extended_harmonic_oscillator /\
    try_fit L h = None /\
    fit_best_waveform L three_timepoints
      = Some ("harmonic_oscillator"%string, NaNParams, NaNCov, [0; 0; 0; 0; 0]).
Proof.
  eexists _, _. split; [vm_compute; reflexivity |].
  split; [reflexivity |]. split; reflexivity.
Qed.

(** C7, amended. When the fit of a model raises, its parameters and
    covariance are the undefined marker, its fitted values are zeros, one
    per column of the row, and its SSE is +infinity; [fit_best_waveform]
    still returns and so does the loop body for that feature; the failed
    model is not selected when some model has an SSE below +infinity, and
    it can be selected only as the first (harmonic) model. *)
Theorem failed_fit_falls_back (L : Libraries) (df_row : Series) (t a w : list float)
    (calls : list CurveFitCall) (k : nat) (call : CurveFitCall) :
  fit_inputs L df_row = Some (t, a, w) ->
  curve_fit_calls L df_row = Some calls ->
  nth_error calls k = Some call ->
  try_fit L call = None ->
  exists fits,
    fit_all L df_row = Some fits /\
    fit_best_waveform L df_row = Some (best_fit fits) /\
    params (nth k (fits_list fits) (fallback 0)) = NaNParams /\
    covariance (nth k (fits_list fits) (fallback 0)) = NaNCov /\
    fitted_values (nth k (fits_list fits) (fallback 0)) = repeat 0 (List.length df_row) /\
    List.length (fitted_values (nth k (fits_list fits) (fallback 0))) = List.length df_row /\
    sse (nth k (fits_list fits) (fallback 0)) = infinity /\
    (forall j, (j < 4)%nat -> (nth j (sse_values fits) 0 <? infinity) = true ->
               np_argmin (sse_values fits) <> k) /\
    (np_argmin (sse_values fits) = k -> k = 0%nat) /\
    (kendalltau_contract L -> exists r, feature_result L df_row = Some r).
Proof.
  intros Hin Hcalls Hk Hfail.
  destruct (fit_all_calls L df_row t a w Hin) as (h & s & c & tr & Hc & Hf & _).
  rewrite Hc in Hcalls. injection Hcalls as <-.
  set (n := List.length df_row) in *.
  remember (try_except L h n, try_except L s n, try_except L c n, try_except L tr n)
    as fits eqn:Efits.
  exists fits. split; [exact Hf |].
  split; [unfold fit_best_waveform; rewrite Hf; reflexivity |].
  assert (Hlt : (k < 4)%nat).
  { assert (Hs : nth_error [h; s; c; tr] k <> None) by congruence.
    apply nth_error_Some in Hs. exact Hs. }
  assert (Hfit : nth k (fits_list fits) (fallback 0) = fallback n).
  { subst fits.
    destruct k as [| [| [| [| k]]]]; try lia; simpl in Hk;
      injection Hk as ->; simpl; unfold try_except; now rewrite Hfail. }
  assert (Hsse : nth k (sse_values fits) 0 = infinity).
  { change infinity with (sse (fallback n)). rewrite <- Hfit.
    subst fits. destruct k as [| [| [| [| k]]]]; try reflexivity. lia. }
  rewrite Hfit. unfold fallback. cbn [params covariance fitted_values sse].
  repeat split.
  - apply repeat_length.
  - intros j Hj Hbelow Hsel. rewrite <- Hsel in Hsse.
    destruct (np_argmin_infinity _ (sse_values_not_nil _) Hsse) as (_ & Hall).
    rewrite (Hall j) in Hbelow; [discriminate |].
    subst fits. exact Hj.
  - intros Hsel. rewrite <- Hsel in Hsse.
    destruct (np_argmin_infinity _ (sse_values_not_nil _) Hsse) as (H0 & _).
    rewrite <- Hsel. exact H0.
  - intros HK. exact (feature_result_defined L df_row t a w HK Hin).
Qed.

Lemma failed_fit_falls_back_witness :
  let L := Reference.lib Reference.fails_on_harmonic (fun _ => 0.01) (fun l => l)
             Reference.stable_sort in
  exists fits fitted,
    fit_all L three_timepoints = Some fits /\
    fit_best_waveform L three_timepoints
      = Some ("transient"%string, Params [4; 0; 2; 2], Cov [], fitted) /\
    params (nth 0 (fits_list fits) (fallback 0)) = NaNParams /\
    covariance (nth 0 (fits_list fits) (fallback 0)) = NaNCov /\
    fitted_values (nth 0 (fits_list fits) (fallback 0)) = [0; 0; 0; 0; 0] /\
    sse (nth 0 (fits_list fits) (fallback 0)) = infinity /\
    np_argmin (sse_values fits) <> 0%nat.
Proof.
  intro L.
  eassert (Hin : fit_inputs L three_timepoints = Some (_, _, _))
    by (vm_compute; reflexivity).
  eassert (Hcalls : curve_fit_calls L three_timepoints = Some (_ :: _))
    by (vm_compute; reflexivity).
  destruct (failed_fit_falls_back L three_timepoints _ _ _ _ 0 _ Hin Hcalls eq_refl eq_refl)
    as (fits & A & B & P & C & F & _ & S & Hlose & _ & _).
  exists fits. eexists. split; [exact A |].
  pose proof A as A'. vm_compute in A'. injection A' as <-.
  split; [exact B |]. split; [exact P |]. split; [exact C |].
  split; [exact F |]. split; [exact S |].
  apply (Hlose 1%nat); [lia | reflexivity].
Defined.

(** ** The selected model *)







(** ** Sorting stand-ins meet the contract of [sort_values] *)

Lemma na_last_le_trans (a b c : float) :
  na_last_le a b = true -> na_last_le b c = true -> na_last_le a c = true.
Proof.
  unfold na_last_le. intros H1 H2.
  destruct (is_nan c) eqn:Ec; [reflexivity |]. simpl in *.
  destruct (is_nan b) eqn:Eb; simpl in *; [exfalso; float_order |].
  apply leb_trans with b; assumption.
Qed.

Lemma na_last_le_total (a b : float) :
  na_last_le a b = false -> na_last_le b a = true.
Proof.
  unfold na_last_le. intros H.
  apply orb_false_iff in H. destruct H as [Hb H].
  destruct (is_nan a) eqn:Ea; [reflexivity |]. simpl.
  apply ltb_leb. now apply not_leb_ltb.
Qed.

Section InsertionSortFacts.
Variable key : OutRow -> float.
Variable stay : float -> float -> bool.
Hypothesis stay_true : forall y a, stay y a = true -> na_last_le y a = true.
Hypothesis stay_false : forall y a, stay y a = false -> na_last_le a y = true.

Lemma insert_perm (a : OutRow) (l : list OutRow) :
  Permutation (a :: l) (Reference.insert key stay a l).
Proof.
  induction l as [| y l IH]; simpl; [reflexivity |].
  destruct (stay (key y) (key a)); [| reflexivity].
  rewrite perm_swap. now constructor.
Qed.

Lemma insertion_sort_perm (l : list OutRow) :
  Permutation l (Reference.insertion_sort key stay l).
Proof.
  induction l as [| a l IH]; simpl; [constructor |].
  rewrite <- insert_perm. now constructor.
Qed.

Lemma insert_ascending (a : OutRow) (l : list OutRow) :
  ascending key l -> ascending key (Reference.insert key stay a l).
Proof.
  unfold ascending. induction 1 as [| y l Hs IH Hy]; simpl.
  - repeat constructor.
  - destruct (stay (key y) (key a)) eqn:E.
    + constructor; [exact IH |].
      apply (Permutation_Forall (insert_perm a l)).
      constructor; [now apply stay_true | exact Hy].
    + constructor; [now constructor |].
      constructor; [now apply stay_false |].
      eapply Forall_impl; [| exact Hy]. intros z Hz.
      apply na_last_le_trans with (key y); [now apply stay_false | exact Hz].
Qed.

Lemma insertion_sort_ascending (l : list OutRow) :
  ascending key (Reference.insertion_sort key stay l).
Proof.
  induction l as [| a l IH]; simpl; [constructor |].
  now apply insert_ascending.
Qed.
End InsertionSortFacts.

Lemma stable_sort_contract fit p correct :
  sort_values_contract (Reference.lib fit p correct Reference.stable_sort).
Proof.
  intros key l. simpl. unfold Reference.stable_sort. split.
  - apply insertion_sort_perm.
  - apply insertion_sort_ascending.
    + intros y a H. apply negb_true_iff in H. now apply na_last_le_total.
    + intros y a H. now apply negb_false_iff in H.
Qed.

Lemma reversing_sort_contract fit p correct :
  sort_values_contract (Reference.lib fit p correct Reference.reversing_sort).
Proof.
  intros key l. simpl. unfold Reference.reversing_sort. split.
  - apply insertion_sort_perm.
  - apply insertion_sort_ascending.
    + intros y a H. exact H.
    + intros y a H. now apply na_last_le_total.
Qed.




(** The insertion sort that skips strictly smaller rows only keeps rows
    with the same key in the order they had. *)
Section StableInsertion.
Variable key : OutRow -> float.
Variable k : float.


End StableInsertion.






(** ** The output table *)

(** The table built from the index, the three lists the loop fills and
    the corrected p-values: one row per feature, in input order. *)
Lemma rows_of_results (results : list (float * Oscillation * PyParams))
    (index : list IndexLabel) (corr : list float) :
  List.length index = List.length results ->
  List.length corr = List.length results ->
  let out := rows_of index (map (fun x => fst (fst x)) results) corr
                     (map (fun x => snd (fst x)) results) (map snd results) in
  map Feature out = index /\
  map corr_p_val out = corr /\
  Forall (fun r => In (p_val r, Type_ r, parameters r) results) out.
Proof.
  revert index corr.
  induction results as [| [[p o] prm] results IH]; intros index corr Hi Hc;
    destruct index as [| ix index]; destruct corr as [| q corr];
    try discriminate Hi; try discriminate Hc; simpl.
  - repeat split. constructor.
  - injection Hi as Hi. injection Hc as Hc.
    destruct (IH index corr Hi Hc) as (A & B & C).
    split; [now f_equal |]. split; [now f_equal |].
    constructor; [now left |].
    eapply Forall_impl; [| exact C]. intros r Hr. now right.
Qed.

Lemma detect_index_rows (df df' : DataFrame) :
  detect_index df = Some df' ->
  List.length (df_rows df') = List.length (df_rows df) /\
  df_rows df <> [].
Proof.
  unfold detect_index, iloc_0_0. intros H.
  destruct (df_rows df) as [| [ix [| c cs]] rows] eqn:E; try discriminate H.
  injection H as <-. split; [| discriminate].
  destruct (is_str c); simpl; rewrite E; [now rewrite length_map | reflexivity].
Qed.

(** What a returning run of [get_pycycle] went through. *)
Lemma get_pycycle_inv (L : Libraries) (df : DataFrame) (out : list OutRow) :
  get_pycycle L df = Some out ->
  exists df' results df_out,
    detect_index df = Some df' /\
    mapM (fun r => feature_result L (iloc_row df' r)) (df_rows df') = Some results /\
    map Feature df_out = map fst (df_rows df') /\
    Forall (fun r => In (p_val r, Type_ r, parameters r) results) df_out /\
    out = sort_values L corr_p_val (sort_values L p_val df_out).
Proof.
  unfold get_pycycle. intros H.
  destruct (detect_index df) as [df' |]; [| discriminate].
  destruct (mapM _ (df_rows df')) as [results |] eqn:R; [| discriminate].
  unfold make_df_out in H.
  destruct (Nat.eqb_spec (List.length (multipletests L (map (fun x => fst (fst x)) results)))
                         (List.length (map fst (df_rows df')))) as [Hlen |]; [| discriminate].
  injection H as <-.
  pose proof (mapM_length _ _ _ R) as Hres.
  rewrite length_map in Hlen.
  destruct (rows_of_results results (map fst (df_rows df'))
              (multipletests L (map (fun x => fst (fst x)) results)))
    as (A & _ & C); [rewrite length_map; lia | lia |].
  eexists df', results, _. repeat split; eassumption || reflexivity.
Qed.

Lemma sorted_twice_perm (L : Libraries) (l : list OutRow) :
  sort_values_contract L ->
  Permutation l (sort_values L corr_p_val (sort_values L p_val l)).
Proof.
  intros HS. etransitivity; [apply (HS p_val l) | apply (HS corr_p_val _)].
Qed.

(** ** Significance gating *)

Lemma geb_ltb_005 (p : float) : (p >=? 0.05) = true -> (p <? 0.05) = false.
Proof. intros. float_order. Qed.

(** The category chosen in the loop body. *)
Lemma feature_result_gate (L : Libraries) (df_row : Series)
    (p : float) (o : Oscillation) (prm : PyParams) :
  feature_result L df_row = Some (p, o, prm) ->
  ((p <? 0.05) = false -> o = NoCall) /\
  ((p <? 0.05) = true -> exists name, o = Category name).
Proof.
  unfold feature_result. intros H.
  destruct (fit_best_waveform L df_row) as [[[[waveform params] cov] fitted] |];
    [| discriminate].
  destruct (mapM cell_num (map snd df_row)) as [values |]; [| discriminate].
  destruct (kendalltau L fitted values) as [tau p_value].
  destruct (p_value <? 0.05) eqn:E.
  - destruct (String.eqb waveform "harmonic_oscillator").
    + destruct (getitem1 params) as [gamma |]; [| discriminate].
      injection H as <- <- _. split; [congruence | intros _; eauto].
    + injection H as <- <- _. split; [congruence | intros _; eauto].
  - injection H as <- <- _. split; [reflexivity | congruence].
Qed.

(** C6. In every table the pipeline returns, a row whose p-value is at
    least 0.05 has the no-call marker as its category, and a row that has
    a category has a p-value below 0.05. *)
Theorem significance_gating (L : Libraries) (df : DataFrame) (out : list OutRow) :
  sort_values_contract L ->
  get_pycycle L df = Some out ->
  Forall (fun r =>
            ((p_val r >=? 0.05) = true -> Type_ r = NoCall) /\
            (Type_ r <> NoCall -> (p_val r <? 0.05) = true)) out.
Proof.
  intros HS H.
  destruct (get_pycycle_inv L df out H) as (df' & results & df_out & _ & R & _ & F & ->).
  apply (Permutation_Forall (sorted_twice_perm L df_out HS)).
  eapply Forall_impl; [| exact F]. intros r Hr.
  destruct (mapM_In _ _ _ _ R Hr) as (row & _ & Hrow).
  destruct (feature_result_gate L _ _ _ _ Hrow) as [Hno Hyes].
  split.
  - intros Hge. apply Hno. now apply geb_ltb_005.
  - intros Hcat. destruct (p_val r <? 0.05); [reflexivity |].
    elim Hcat. now apply Hno.
Qed.

(** ** Order of the output *)



(** The tie order rests on [sort_values] keeping ties: a sort that meets
    [sort_values_contract] and reverses rows with equal keys leaves two
    features with the same corrected p-value in descending order of raw
    p-value. *)
Lemma ties_need_a_tie_keeping_sort :
  let L := Reference.lib Reference.keeps_p0 Reference.first_percent Reference.all_to_one
             Reference.reversing_sort in
  sort_values_contract L /\
  exists out,
    get_pycycle L Reference.two_genes = Some out /\
    map Feature out = [Ix (Str "geneA"); Ix (Str "geneB")] /\
    map p_val out = [5 / 100; 1 / 100] /\
    map corr_p_val out = [1; 1] /\
    ascending corr_p_val out /\
    ~ tie_order_by_raw out.
Proof.
  split; [apply reversing_sort_contract |].
  eexists. split; [vm_compute; reflexivity |].
  split; [reflexivity |]. split; [reflexivity |]. split; [reflexivity |]. split.
  - repeat constructor.
  - intros H. inversion H as [| r l Hr _]; subst.
    inversion Hr as [| s l' Hrs _]; subst.
    specialize (Hrs eq_refl). vm_compute in Hrs. discriminate Hrs.
Qed.



Lemma significance_gating_witness :
  let L := Reference.lib Reference.keeps_p0 Reference.first_percent (fun l => l)
             Reference.stable_sort in
  exists out,
    get_pycycle L Reference.two_genes = Some out /\
    map p_val out = [1 / 100; 5 / 100] /\
    map Type_ out = [Category "harmonic"; NoCall] /\
    Forall (fun r =>
              ((p_val r >=? 0.05) = true -> Type_ r = NoCall) /\
              (Type_ r <> NoCall -> (p_val r <? 0.05) = true)) out.
Proof.
  intro L.
  eassert (H : get_pycycle L Reference.two_genes = Some _) by (vm_compute; reflexivity).
  eexists. split; [exact H |]. split; [reflexivity |]. split; [reflexivity |].
  apply (significance_gating L Reference.two_genes _).
  - apply stable_sort_contract.
  - exact H.
Defined.

(** ** Completeness of the output *)

(** C9. The output table has one row per feature row of the input, and
    its Feature column is a rearrangement of the input's feature
    identifiers: every identifier of the input is in the output, and when
    the identifiers are distinct none is repeated. *)
Theorem output_complete (L : Libraries) (df : DataFrame) (out : list OutRow) :
  sort_values_contract L ->
  get_pycycle L df = Some out ->
  List.length out = List.length (df_rows df) /\
  exists ids,
    feature_ids df = Some ids /\
    Permutation ids (map Feature out) /\
    (forall ix, In ix ids <-> In ix (map Feature out)) /\
    (NoDup ids -> NoDup (map Feature out)).
Proof.
  intros HS H.
  destruct (get_pycycle_inv L df out H) as (df' & results & df_out & D & R & Fe & _ & ->).
  pose proof (sorted_twice_perm L df_out HS) as P.
  assert (Pf : Permutation (map fst (df_rows df'))
                 (map Feature (sort_values L corr_p_val (sort_values L p_val df_out)))).
  { rewrite <- Fe. now apply Permutation_map. }
  split.
  - rewrite <- (Permutation_length P).
    rewrite <- (length_map Feature), Fe, length_map.
    apply (detect_index_rows df df' D).
  - exists (map fst (df_rows df')). unfold feature_ids. rewrite D.
    split; [reflexivity |]. split; [exact Pf |]. split.
    + intros ix. split; apply Permutation_in; [exact Pf | now symmetry].
    + intros Hnd. exact (Permutation_NoDup Pf Hnd).
Qed.

Lemma output_complete_witness :
  let L := Reference.lib Reference.keeps_p0 Reference.first_percent (fun l => l)
             Reference.stable_sort in
  exists out,
    get_pycycle L Reference.two_genes = Some out /\
    map Feature out = [Ix (Str "geneB"); Ix (Str "geneA")] /\
    List.length out = 2%nat /\
    exists ids,
      feature_ids Reference.two_genes = Some ids /\
      Permutation ids (map Feature out) /\
      (forall ix, In ix ids <-> In ix (map Feature out)) /\
      (NoDup ids -> NoDup (map Feature out)).
Proof.
  intro L.
  eassert (H : get_pycycle L Reference.two_genes = Some _) by (vm_compute; reflexivity).
  eexists. split; [exact H |]. split; [reflexivity |].
  apply (output_complete L Reference.two_genes _).
  - apply stable_sort_contract.
  - exact H.
Defined.

(** ** The pipeline returns on well-formed tables *)

Lemma readable_entry (e : Label * Cell) :
  ~ unreadable e ->
  exists t zt x,
    label_time (fst e) = Some t /\ label_zt (fst e) = Some zt /\ cell_num (snd e) = Some x.
Proof.
  unfold unreadable. intros H.
  destruct (label_time (fst e)) as [t |]; [| tauto].
  destruct (label_zt (fst e)) as [zt |]; [| tauto].
  destruct (cell_num (snd e)) as [x |]; [| tauto].
  now exists t, zt, x.
Qed.

Lemma numeric_cells (df_row : Series) :
  Forall (fun e => ~ unreadable e) df_row ->
  exists a, mapM cell_num (map snd df_row) = Some a.
Proof.
  intros H. apply mapM_Some. intros c Hc.
  apply in_map_iff in Hc. destruct Hc as (e & <- & He).
  rewrite Forall_forall in H.
  destruct (readable_entry e (H e He)) as (t & zt & x & _ & _ & Hx). eauto.
Qed.

Lemma numeric_labels (df_row : Series) :
  Forall (fun e => ~ unreadable e) df_row ->
  forall col, In col (map fst df_row) ->
              (exists zt, label_zt col = Some zt) /\ (exists t, label_time col = Some t).
Proof.
  intros H col Hc.
  apply in_map_iff in Hc. destruct Hc as (e & <- & He).
  rewrite Forall_forall in H.
  destruct (readable_entry e (H e He)) as (t & zt & x & Ht & Hz & _). eauto.
Qed.

Lemma fit_inputs_defined (L : Libraries) (df_row : Series) :
  numeric_row df_row -> exists t a w, fit_inputs L df_row = Some (t, a, w).
Proof.
  intros [Hne Hnum]. unfold fit_inputs, timepoints_of, calculate_variances.
  destruct (mapM_Some label_time (map fst df_row)) as [raw ->].
  { intros col Hc. apply (numeric_labels df_row Hnum col Hc). }
  destruct (numeric_cells df_row Hnum) as [a Ha]. rewrite Ha.
  destruct (mapM_Some label_zt (map fst df_row)) as [zt_times ->].
  { intros col Hc. apply (numeric_labels df_row Hnum col Hc). }
  match goal with
  | |- context [mapM ?g (np_unique zt_times)] =>
      destruct (mapM_Some g (np_unique zt_times)) as [variances ->]
  end.
  { intros zt _.
    match goal with
    | |- context [mapM cell_num (map snd ?l)] =>
        destruct (numeric_cells l) as [group ->]; [| eauto]
    end.
    apply Forall_forall. intros e He. apply filter_In in He.
    rewrite Forall_forall in Hnum. apply Hnum, He. }
  destruct a as [| x a].
  - apply mapM_length in Ha. rewrite length_map in Ha.
    destruct df_row; [congruence | discriminate Ha].
  - eauto.
Qed.

(** On a table with a first cell whose rows, after the index detection,
    are numeric rows, [get_pycycle] returns a table, whatever the solver
    does. *)
Theorem get_pycycle_returns (L : Libraries) (df df' : DataFrame) :
  kendalltau_contract L ->
  multipletests_contract L ->
  detect_index df = Some df' ->
  Forall (fun r => numeric_row (iloc_row df' r)) (df_rows df') ->
  exists out, get_pycycle L df = Some out.
Proof.
  intros HK HM D Hrows. unfold get_pycycle. rewrite D.
  destruct (mapM_Some (fun r => feature_result L (iloc_row df' r)) (df_rows df'))
    as [results R].
  { intros r Hr. rewrite Forall_forall in Hrows.
    destruct (fit_inputs_defined L _ (Hrows r Hr)) as (t & a & w & Hin).
    exact (feature_result_defined L _ t a w HK Hin). }
  rewrite R. unfold make_df_out.
  rewrite HM, !length_map, (mapM_length _ _ _ R), Nat.eqb_refl. eauto.
Qed.

Lemma get_pycycle_returns_witness :
  let L := Reference.lib Reference.never_fits Reference.first_percent (fun l => l)
             Reference.stable_sort in
  exists out, get_pycycle L Reference.two_genes = Some out.
Proof.
  intro L.
  eapply (get_pycycle_returns L Reference.two_genes).
  - apply rank_test_contract.
  - intros pvals. reflexivity.
  - reflexivity.
  - repeat constructor; try discriminate;
      intros [H | [H | H]]; vm_compute in H; discriminate H.
Defined.

(** ** More on the rhythm classifier *)

Lemma key_opp (x : float) :
  key (- x) = match key x with
              | Some (a, b, c) => Some (- a, - b, - c)%Z
              | None => None
              end.
Proof.
  unfold key. rewrite FloatAxioms.opp_spec.
  destruct (Prim2SF x) as [s | s | | s m e]; simpl; try destruct s; simpl;
    try reflexivity.
  now rewrite Z.opp_involutive.
Qed.

Ltac thresholds_opp :=
  to_keys; unfold key_lt, key_le in *;
  rewrite ?key_opp in *;
  rewrite ?key_p003, ?key_p015, ?key_m003, ?key_m015 in *;
  split_keys; solve [discriminate | tauto | lia].

(** Each label is returned on its range only: the converse of the five
    ranges, with 'repressed' also the label of NaN. *)
Theorem categorize_rhythm_label_range (gamma : float) :
  (categorize_rhythm gamma = "damped"%string ->
   (0.03 <=? gamma) = true /\ (gamma <=? 0.15) = true) /\
  (categorize_rhythm gamma = "forced"%string ->
   (-0.15 <=? gamma) = true /\ (gamma <=? -0.03) = true) /\
  (categorize_rhythm gamma = "harmonic"%string ->
   (-0.03 <? gamma) = true /\ (gamma <? 0.03) = true) /\
  (categorize_rhythm gamma = "overexpressed"%string -> (gamma >? 0.15) = true) /\
  (categorize_rhythm gamma = "repressed"%string ->
   (gamma <? -0.15) = true \/ is_nan gamma = true).
Proof.
  unfold categorize_rhythm.
  destruct ((0.15 >=? gamma) && (gamma >=? 0.03)) eqn:E1.
  { apply andb_prop in E1. destruct E1.
    split; [| split; [| split; [| split]]]; intros Hlab; try discriminate Hlab.
    now split. }
  destruct ((-0.15 <=? gamma) && (gamma <=? -0.03)) eqn:E2.
  { apply andb_prop in E2. destruct E2.
    split; [| split; [| split; [| split]]]; intros Hlab; try discriminate Hlab.
    now split. }
  apply andb_false_iff in E1, E2.
  destruct ((-0.03 <=? gamma) && (gamma <=? 0.03)) eqn:E3.
  { apply andb_prop in E3. destruct E3 as [Hlo Hhi].
    split; [| split; [| split; [| split]]]; intros Hlab; try discriminate Hlab.
    split; destruct E1, E2; thresholds. }
  apply andb_false_iff in E3.
  destruct (gamma >? 0.15) eqn:E4.
  { split; [| split; [| split; [| split]]]; intros Hlab; try discriminate Hlab.
    reflexivity. }
  split; [| split; [| split; [| split]]]; intros Hlab; try discriminate Hlab.
  destruct (is_nan gamma) eqn:En; [now right | left].
  destruct E1, E2, E3; thresholds.
Qed.

Lemma categorize_rhythm_label_range_witness :
  ((0.03 <=? 0.1) = true /\ (0.1 <=? 0.15) = true) /\
  ((-0.03 <? 0) = true /\ (0 <? 0.03) = true) /\
  ((-1 <? -0.15) = true \/ is_nan (-1) = true).
Proof.
  split; [| split].
  - apply (categorize_rhythm_label_range 0.1). reflexivity.
  - apply (categorize_rhythm_label_range 0). reflexivity.
  - apply (categorize_rhythm_label_range (-1)). reflexivity.
Defined.

Ltac decide_any :=
  match goal with
  | |- context [if ?c then _ else _] =>
      let E := fresh "E" in
      destruct c eqn:E;
      [ try (exfalso;
             first [ apply andb_prop in E; destruct E; thresholds_opp
                   | thresholds_opp ])
      | try (exfalso;
             first [ apply andb_false_iff in E; destruct E; thresholds_opp
                   | thresholds_opp ]) ]
  end.

(** Negating the damping coefficient mirrors the label: damped and forced
    change places, so do overexpressed and repressed, harmonic stays. *)
Theorem categorize_rhythm_mirror (gamma : float) :
  is_nan gamma = false ->
  categorize_rhythm (- gamma) = mirror (categorize_rhythm gamma).
Proof.
  intros Hn. unfold categorize_rhythm at 2.
  destruct ((0.15 >=? gamma) && (gamma >=? 0.03)) eqn:E1.
  { apply andb_prop in E1. destruct E1. cbn [mirror String.eqb Ascii.eqb Bool.eqb].
    unfold categorize_rhythm. repeat decide_any. reflexivity. }
  destruct ((-0.15 <=? gamma) && (gamma <=? -0.03)) eqn:E2.
  { apply andb_prop in E2. destruct E2. cbn [mirror String.eqb Ascii.eqb Bool.eqb].
    unfold categorize_rhythm. repeat decide_any. reflexivity. }
  apply andb_false_iff in E1, E2.
  destruct ((-0.03 <=? gamma) && (gamma <=? 0.03)) eqn:E3.
  { apply andb_prop in E3. destruct E3. cbn [mirror String.eqb Ascii.eqb Bool.eqb].
    unfold categorize_rhythm.
    destruct E1, E2; repeat decide_any; reflexivity. }
  apply andb_false_iff in E3.
  destruct (gamma >? 0.15) eqn:E4.
  { cbn [mirror String.eqb Ascii.eqb Bool.eqb]. unfold categorize_rhythm.
    repeat decide_any. reflexivity. }
  cbn [mirror String.eqb Ascii.eqb Bool.eqb]. unfold categorize_rhythm.
  destruct E1, E2, E3; repeat decide_any; reflexivity.
Qed.

Lemma categorize_rhythm_mirror_witness :
  categorize_rhythm (- 0.1) = "forced"%string /\
  categorize_rhythm (- 0.3) = "repressed"%string.
Proof.
  split.
  - apply (categorize_rhythm_mirror 0.1). reflexivity.
  - apply (categorize_rhythm_mirror 0.3). reflexivity.
Defined.

(** ** The keys of the variance map *)

Lemma insert_unique_In (z y : N) (l : list N) :
  In y (insert_unique z l) <-> y = z \/ In y l.
Proof.
  induction l as [| x l IH]; simpl.
  - intuition.
  - destruct (N.ltb_spec z x); [simpl; intuition |].
    destruct (N.eqb_spec z x) as [-> | Hne]; simpl; [intuition |].
    rewrite IH. intuition.
Qed.

Lemma insert_unique_sorted (z : N) (l : list N) :
  StronglySorted N.lt l -> StronglySorted N.lt (insert_unique z l).
Proof.
  induction 1 as [| x l Hs IH Hx]; simpl.
  - repeat constructor.
  - destruct (N.ltb_spec z x) as [Hlt | Hge].
    + constructor; [now constructor |].
      constructor; [exact Hlt |].
      eapply Forall_impl; [| exact Hx]. intros y Hy. lia.
    + destruct (N.eqb_spec z x) as [-> | Hne]; [now constructor |].
      constructor; [exact IH |].
      apply Forall_forall. intros y Hy. apply insert_unique_In in Hy.
      destruct Hy as [-> | Hy]; [lia |].
      rewrite Forall_forall in Hx. now apply Hx.
Qed.

Lemma np_unique_In (y : N) (l : list N) : In y (np_unique l) <-> In y l.
Proof.
  unfold np_unique. induction l as [| z l IH]; simpl; [reflexivity |].
  rewrite insert_unique_In, IH. intuition.
Qed.

Lemma np_unique_sorted (l : list N) : StronglySorted N.lt (np_unique l).
Proof.
  unfold np_unique. induction l as [| z l IH]; simpl; [constructor |].
  now apply insert_unique_sorted.
Qed.

Lemma sorted_lt_NoDup (l : list N) : StronglySorted N.lt l -> NoDup l.
Proof.
  induction 1 as [| x l Hs IH Hx]; constructor; [| exact IH].
  intros Hin. rewrite Forall_forall in Hx. specialize (Hx x Hin). lia.
Qed.

Lemma mapM_keys {A B : Type} (g : A -> option B) (l : list A) (r : list (A * B)) :
  mapM (fun a => b <- g a ;; Some (a, b)) l = Some r -> map fst r = l.
Proof.
  revert r. induction l as [| a l IH]; intros r H; simpl in H.
  - injection H as <-. reflexivity.
  - destruct (g a) as [b |]; [| discriminate].
    destruct (mapM _ l) as [bs |]; [| discriminate].
    injection H as <-. simpl. f_equal. now apply IH.
Qed.

Lemma calculate_variances_keys (L : Libraries) (data : Series)
    (variances : list (N * float)) (zt_times : list N) :
  mapM label_zt (map fst data) = Some zt_times ->
  calculate_variances L data = Some variances ->
  map fst variances = np_unique zt_times.
Proof.
  unfold calculate_variances. intros Z H. rewrite Z in H.
  apply (mapM_keys
           (fun zt =>
              group <- mapM cell_num
                         (map snd (filter (fun e => match label_zt (fst e) with
                                                    | Some z => (z =? zt)%N
                                                    | None => false
                                                    end) data)) ;;
              Some (if truthy (series_var L group) then series_var L group else 0))).
  rewrite <- H. clear H. induction (np_unique zt_times) as [| zt l IH]; simpl.
  - reflexivity.
  - destruct (mapM cell_num _) as [group |]; [| reflexivity].
    now rewrite IH.
Qed.

(** The variance map has one entry for each distinct timepoint of the
    row, and no other; its keys are in ascending order. *)
Theorem variance_map_keys (L : Libraries) (data : Series)
    (variances : list (N * float)) :
  calculate_variances L data = Some variances ->
  exists zt_times,
    mapM label_zt (map fst data) = Some zt_times /\
    List.length zt_times = List.length data /\
    (forall zt, In zt (map fst variances) <-> In zt zt_times) /\
    NoDup (map fst variances) /\
    StronglySorted N.lt (map fst variances).
Proof.
  intros H.
  destruct (mapM label_zt (map fst data)) as [zt_times |] eqn:Z;
    [| unfold calculate_variances in H; rewrite Z in H; discriminate].
  exists zt_times. split; [reflexivity |].
  split; [rewrite (mapM_length _ _ _ Z); apply length_map |].
  rewrite (calculate_variances_keys L data variances zt_times Z H).
  split; [intros zt; apply np_unique_In |].
  split; [apply sorted_lt_NoDup |]; apply np_unique_sorted.
Qed.

Lemma variance_map_keys_witness :
  exists zt_times,
    mapM label_zt (map fst three_timepoints) = Some zt_times /\
    List.length zt_times = 5%nat /\
    (forall zt, In zt [0; 6; 12]%N <-> In zt zt_times) /\
    NoDup [0; 6; 12]%N /\
    StronglySorted N.lt [0; 6; 12]%N.
Proof.
  apply (variance_map_keys
           (Reference.lib Reference.never_fits (fun _ => 0.01) (fun l => l)
              Reference.stable_sort)
           three_timepoints [(0%N, 2); (6%N, 2); (12%N, nan)]).
  vm_compute. reflexivity.
Defined.

(** ** The weights, column by column *)

Lemma below_In (k : N) (n : nat) : (k < N.of_nat n)%N -> In k (below n).
Proof.
  intros H. unfold below. apply in_map_iff. exists (N.to_nat k).
  split; [apply N2Nat.id |]. apply in_seq. lia.
Qed.

Lemma only_zero_matches_200 : only_zero_matches 200 = true.
Proof. vm_compute. reflexivity. Qed.

Lemma rescaled_key_match (zt k : N) :
  (zt < 200)%N -> float_as_N (rescale zt) = Some k -> zt = 0%N /\ k = 0%N.
Proof.
  intros Hzt E.
  pose proof only_zero_matches_200 as H. unfold only_zero_matches in H.
  rewrite forallb_forall in H. specialize (H zt (below_In zt 200 Hzt)).
  rewrite E in H. apply andb_prop in H.
  destruct H as [H1 H2]. apply N.eqb_eq in H1, H2. now split.
Qed.

Lemma as_int64_Some (zt z : N) : as_int64 zt = Some z -> z = zt /\ (zt < 2 ^ 63)%N.
Proof.
  unfold as_int64. destruct (N.ltb_spec zt (2 ^ 63)) as [Hlt | Hge]; [| discriminate].
  intros H. injection H as <-. now split.
Qed.

Lemma documented_label_time (labels : list Label) (zt_times : list N) :
  Forall documented_shape labels ->
  mapM label_zt labels = Some zt_times ->
  mapM label_time labels = Some (map float_of_N zt_times).
Proof.
  intros Hdoc. revert zt_times.
  induction Hdoc as [| l labels (zt & c & ->) _ IH]; intros zt_times H; simpl in H |- *.
  - injection H as <-. reflexivity.
  - destruct (as_int64 zt) as [z |] eqn:Ez; [| discriminate].
    destruct (mapM label_zt labels) as [zs |]; [| discriminate].
    injection H as <-. rewrite (IH zs eq_refl).
    apply as_int64_Some in Ez. destruct Ez as [-> _]. reflexivity.
Qed.

Lemma timepoints_of_rescale (df_row : Series) (zt_times : list N) :
  Forall (fun e => documented_shape (fst e)) df_row ->
  mapM label_zt (map fst df_row) = Some zt_times ->
  timepoints_of df_row = Some (map rescale zt_times).
Proof.
  intros Hdoc H. unfold timepoints_of.
  rewrite (documented_label_time (map fst df_row) zt_times); [| | exact H].
  - simpl. now rewrite map_map.
  - apply Forall_map. exact Hdoc.
Qed.

Lemma Forall2_map_r {A B : Type} (P : A -> B -> Prop) (g : A -> B) (l : list A) :
  (forall x, In x l -> P x (g x)) -> Forall2 P l (map g l).
Proof.
  induction l as [| a l IH]; intros H; simpl; constructor.
  - apply H. now left.
  - apply IH. intros x Hx. apply H. now right.
Qed.

Lemma dict_get_None (d : list (N * float)) (tp : float) :
  float_as_N tp = None -> dict_get d tp = None.
Proof.
  intros H. unfold dict_get. now rewrite H.
Qed.

(** On a row whose labels have the documented shape [ZT<zt>_C<c>] and
    whose timepoints are below 200, the weight of a column at a timepoint
    other than 0 is the bare constant 1e-6, whatever the variance of that
    timepoint; only the columns at timepoint 0 get the weight of their
    recorded variance. *)
Theorem weights_by_column (L : Libraries) (df_row : Series) (t a w : list float)
    (zt_times : list N) :
  Forall (fun e => documented_shape (fst e)) df_row ->
  fit_inputs L df_row = Some (t, a, w) ->
  mapM label_zt (map fst df_row) = Some zt_times ->
  Forall (fun zt => (zt < 200)%N) zt_times ->
  exists variances,
    calculate_variances L df_row = Some variances /\
    Forall2 (fun zt wi =>
               (zt <> 0%N -> wi = 0.000001) /\
               (zt = 0%N ->
                exists v0, In (0%N, v0) variances /\
                           wi = (if v0 !=? 0 then 1 / v0 else 0) + 0.000001))
            zt_times w.
Proof.
  intros Hdoc Hin Hz Hlt.
  unfold fit_inputs in Hin.
  rewrite (timepoints_of_rescale df_row zt_times Hdoc Hz) in Hin.
  destruct (mapM cell_num (map snd df_row)) as [a' |]; [| discriminate].
  destruct (calculate_variances L df_row) as [variances |] eqn:V; [| discriminate].
  destruct a'; [discriminate |]. injection Hin as _ _ <-.
  exists variances. split; [reflexivity |].
  assert (Hkeys : forall zt, In zt (map fst variances) <-> In zt zt_times).
  { intros zt. rewrite (calculate_variances_keys L df_row variances zt_times Hz V).
    apply np_unique_In. }
  unfold weights_of. rewrite !map_map.
  apply Forall2_map_r. intros zt Hzt.
  rewrite Forall_forall in Hlt. specialize (Hlt zt Hzt). split.
  - intros Hne.
    destruct (float_as_N (rescale zt)) as [k |] eqn:E.
    + destruct (rescaled_key_match zt k Hlt E). contradiction.
    + rewrite (dict_get_None variances _ E). reflexivity.
  - intros ->. unfold dict_get.
    replace (float_as_N (rescale 0)) with (Some 0%N) by (vm_compute; reflexivity).
    destruct (find _ variances) as [[k v] |] eqn:F.
    + apply find_some in F. destruct F as [Hkv E]. simpl in E.
      apply N.eqb_eq in E. subst k.
      exists v. split; [exact Hkv | reflexivity].
    + exfalso. apply Hkeys in Hzt. apply in_map_iff in Hzt.
      destruct Hzt as ([k v] & Hk0 & Hkv). simpl in Hk0. subst k.
      pose proof (find_none _ _ F _ Hkv) as E. simpl in E. discriminate E.
Qed.

Lemma weights_by_column_witness :
  exists variances,
    calculate_variances
      (Reference.lib Reference.never_fits (fun _ => 0.01) (fun l => l) Reference.stable_sort)
      two_timepoints = Some variances /\
    Forall2 (fun zt wi =>
               (zt <> 0%N -> wi = 0.000001) /\
               (zt = 0%N ->
                exists v0, In (0%N, v0) variances /\
                           wi = (if v0 !=? 0 then 1 / v0 else 0) + 0.000001))
            [0; 0; 6; 6]%N
            [1 / 2 + 0.000001; 1 / 2 + 0.000001; 0.000001; 0.000001].
Proof.
  eapply (weights_by_column _ two_timepoints).
  - repeat constructor; simpl; unfold documented_shape; eauto.
  - vm_compute. reflexivity.
  - reflexivity.
  - repeat constructor.
Defined.

(** ** When [fit_best_waveform] raises *)

Lemma mapM_None {A B : Type} (g : A -> option B) (l : list A) (x : A) :
  In x l -> g x = None -> mapM g l = None.
Proof.
  induction l as [| a l IH]; intros Hin Hx; [destruct Hin |]. simpl.
  destruct Hin as [-> | Hin].
  - now rewrite Hx.
  - destruct (g a); [| reflexivity]. now rewrite (IH Hin Hx).
Qed.

Lemma unreadable_dec (e : Label * Cell) : {unreadable e} + {~ unreadable e}.
Proof.
  unfold unreadable.
  destruct (label_time (fst e)); [| now left; left].
  destruct (label_zt (fst e)); [| now left; right; left].
  destruct (cell_num (snd e)); [| now left; right; right].
  right. intros [H | [H | H]]; discriminate H.
Defined.

Lemma fit_inputs_raise (L : Libraries) (df_row : Series) :
  df_row = [] \/ (exists e, In e df_row /\ unreadable e) ->
  fit_inputs L df_row = None.
Proof.
  intros [-> | (e & He & [Ht | [Hz | Hc]])]; [reflexivity | | |]; unfold fit_inputs.
  - unfold timepoints_of.
    rewrite (mapM_None _ (map fst df_row) (fst e)); [reflexivity | now apply in_map |].
    exact Ht.
  - destruct (timepoints_of df_row); [| reflexivity].
    destruct (mapM cell_num (map snd df_row)); [| reflexivity].
    unfold calculate_variances.
    rewrite (mapM_None _ (map fst df_row) (fst e)); [reflexivity | now apply in_map |].
    exact Hz.
  - destruct (timepoints_of df_row); [| reflexivity].
    rewrite (mapM_None _ (map snd df_row) (snd e)); [reflexivity | now apply in_map |].
    exact Hc.
Qed.

Lemma fit_inputs_raise_spreads (L : Libraries) (df_row : Series) :
  fit_inputs L df_row = None ->
  fit_best_waveform L df_row = None /\ curve_fit_calls L df_row = None.
Proof.
  intros E. unfold fit_best_waveform, fit_all, curve_fit_calls. now rewrite E.
Qed.

(** [fit_best_waveform] raises exactly on an empty row and on a row with
    an entry that cannot be read: a column label from which line 116 reads
    no float, a column label from which lines 95-96 read no 64-bit
    integer, or a cell that is not a number; in those cases no fit is
    attempted.  The solver never makes it raise. *)
Theorem fit_best_waveform_raises (L : Libraries) (df_row : Series) :
  (fit_best_waveform L df_row = None <->
   df_row = [] \/ exists e, In e df_row /\ unreadable e) /\
  (fit_best_waveform L df_row = None -> curve_fit_calls L df_row = None).
Proof.
  pose proof (fit_inputs_raise_spreads L df_row) as Hnone.
  pose proof (fit_inputs_raise L df_row) as Hbad.
  assert (Hgood : fit_best_waveform L df_row = None ->
                  df_row = [] \/ exists e, In e df_row /\ unreadable e).
  { intros Hf.
    destruct df_row as [| e0 row0] eqn:Erow; [now left | right]. rewrite <- Erow in *.
    destruct (Forall_Exists_dec
                (fun e : Label * Cell => ~ unreadable e)
                (fun e => match unreadable_dec e with
                          | left u => right (fun n => n u)
                          | right n => left n
                          end)
                df_row) as [Hall | Hex].
    - exfalso.
      destruct (fit_inputs_defined L df_row) as (t & a & w & Hin).
      { split; [rewrite Erow; discriminate | exact Hall]. }
      destruct (fit_all_calls L df_row t a w Hin) as (h & s & c & tr & _ & Hfa & _).
      unfold fit_best_waveform in Hf. rewrite Hfa in Hf. discriminate.
    - apply Exists_exists in Hex. destruct Hex as (e & He & Hbad').
      exists e. split; [exact He |].
      destruct (unreadable_dec e) as [u | n]; [exact u | contradiction]. }
  split; [split |].
  - exact Hgood.
  - intros H. now apply Hnone, Hbad.
  - intros H. now apply Hnone, Hbad, Hgood.
Qed.

(** ** The shape of what [fit_best_waveform] returns *)

Lemma call_model_shape (L : Libraries) (m : Model) (t p y : list float) :
  call_model L m t p = Some y ->
  List.length p = arity m /\ List.length y = List.length t.
Proof.
  destruct m; destruct p as [| p1 [| p2 [| p3 [| p4 [| p5 [| p6 p]]]]]];
    simpl; intros H; try discriminate H; injection H as <-;
    (split; [reflexivity | apply length_map]).
Qed.

Lemma fit_inputs_lengths (L : Libraries) (df_row : Series) (t a w : list float) :
  fit_inputs L df_row = Some (t, a, w) ->
  List.length t = List.length df_row /\
  List.length a = List.length df_row /\
  List.length w = List.length df_row.
Proof.
  intros H. pose proof (fit_inputs_values L df_row t a w H) as Ha.
  apply mapM_length in Ha. rewrite length_map in Ha.
  unfold fit_inputs in H.
  destruct (timepoints_of df_row) as [t' |] eqn:T; [| discriminate].
  destruct (mapM cell_num (map snd df_row)) as [a' |]; [| discriminate].
  destruct (calculate_variances L df_row) as [v |]; [| discriminate].
  destruct a'; [discriminate |]. injection H as <- _ <-.
  unfold timepoints_of in T.
  destruct (mapM _ (map fst df_row)) as [raw |] eqn:R; [| discriminate].
  injection T as <-. apply mapM_length in R. rewrite length_map in R.
  unfold weights_of. rewrite !length_map. auto.
Qed.

Lemma try_except_shape (L : Libraries) (call : CurveFitCall) (n : nat) :
  try_except L call n = fallback n \/
  exists popt pcov fitted,
    curve_fit L call = Some (popt, pcov) /\
    call_model L (f call) (xdata call) popt = Some fitted /\
    params (try_except L call n) = Params popt /\
    covariance (try_except L call n) = Cov pcov /\
    fitted_values (try_except L call n) = fitted.
Proof.
  unfold try_except, try_fit.
  destruct (curve_fit L call) as [[popt pcov] |]; [| now left].
  destruct (call_model L (f call) (xdata call) popt) as [fitted |] eqn:M; [| now left].
  right. exists popt, pcov, fitted. simpl. repeat split. exact M.
Qed.

(** The call whose [try]/[except] block supplied the returned values. *)
Lemma selected_call (L : Libraries) (df_row : Series)
    (waveform : string) (prm : PyParams) (cov : PyCov) (fitted : list float) :
  fit_best_waveform L df_row = Some (waveform, prm, cov, fitted) ->
  exists calls i call,
    curve_fit_calls L df_row = Some calls /\
    nth_error calls i = Some call /\
    nth_error waveform_names i = Some waveform /\
    nth_error [extended_harmonic_oscillator; pseudo_square_wave; pseudo_cycloid_wave;
               transient_impulse] i = Some (f call) /\
    List.length (xdata call) = List.length df_row /\
    prm = params (try_except L call (List.length df_row)) /\
    cov = covariance (try_except L call (List.length df_row)) /\
    fitted = fitted_values (try_except L call (List.length df_row)) /\
    (sse (try_except L call (List.length df_row)) = infinity -> i = 0%nat).
Proof.
  intros H. unfold fit_best_waveform in H.
  destruct (fit_all L df_row) as [fits |] eqn:Hfit; [| discriminate].
  injection H as H.
  destruct (fit_all_inv L df_row fits Hfit)
    as (t & a & w & h & s & c & tr & Hin & Hc & -> & Hm & Hx).
  destruct (fit_inputs_lengths L df_row t a w Hin) as (Ht & _ & _).
  rewrite (best_fit_nth _ (fallback 0)) in H.
  set (n := List.length df_row) in *.
  remember (try_except L h n, try_except L s n, try_except L c n, try_except L tr n)
    as fits eqn:Efits.
  pose proof (np_argmin_lt (sse_values fits) (sse_values_not_nil fits)) as Hi.
  pose proof (np_argmin_infinity (sse_values fits) (sse_values_not_nil fits)) as Hinf.
  set (i := np_argmin (sse_values fits)) in *.
  assert (Hi4 : (i < 4)%nat) by (subst fits; exact Hi).
  injection Hm as Hh Hs Hcy Htr.
  inversion Hx as [| ? ? (Xh & _) Hx1]; subst.
  inversion Hx1 as [| ? ? (Xs & _) Hx2]; subst.
  inversion Hx2 as [| ? ? (Xc & _) Hx3]; subst.
  inversion Hx3 as [| ? ? (Xt & _) _]; subst.
  injection H as Hw Hp Hcv Hf.
  exists [h; s; c; tr], i.
  destruct i as [| [| [| [| i]]]]; try lia;
    [exists h | exists s | exists c | exists tr];
    (split; [exact Hc |]); (split; [reflexivity |]);
    (split; [rewrite <- Hw; reflexivity |]);
    (split; [simpl; congruence |]);
    (split; [congruence |]);
    (split; [now rewrite <- Hp |]);
    (split; [now rewrite <- Hcv |]);
    (split; [now rewrite <- Hf |]);
    intros Hsse; apply Hinf; exact Hsse.
Qed.

(** What [fit_best_waveform] returns belongs to one of the four calls:
    the name is that of the call's model, the fitted sequence has one
    value per column, and either the three values are the fallback ones
    or the parameters and covariance are what the solver returned for
    that call, as many parameters as the model takes, with the fitted
    sequence the model evaluated at them. *)
Theorem fit_best_waveform_shape (L : Libraries) (df_row : Series)
    (waveform : string) (prm : PyParams) (cov : PyCov) (fitted : list float) :
  fit_best_waveform L df_row = Some (waveform, prm, cov, fitted) ->
  exists calls i call,
    curve_fit_calls L df_row = Some calls /\
    nth_error calls i = Some call /\
    nth_error waveform_names i = Some waveform /\
    nth_error [extended_harmonic_oscillator; pseudo_square_wave; pseudo_cycloid_wave;
               transient_impulse] i = Some (f call) /\
    List.length fitted = List.length df_row /\
    ((prm = NaNParams /\ cov = NaNCov /\ fitted = repeat 0 (List.length df_row)) \/
     (exists popt pcov,
         curve_fit L call = Some (popt, pcov) /\
         prm = Params popt /\ cov = Cov pcov /\
         List.length popt = arity (f call) /\
         call_model L (f call) (xdata call) popt = Some fitted)).
Proof.
  intros H.
  destruct (selected_call L df_row waveform prm cov fitted H)
    as (calls & i & call & Hc & Hcall & Hw & Hm & Hx & -> & -> & -> & _).
  exists calls, i, call.
  split; [exact Hc |]. split; [exact Hcall |]. split; [exact Hw |].
  split; [exact Hm |].
  destruct (try_except_shape L call (List.length df_row))
    as [Hfb | (popt & pcov & y & Hcf & Hcm & P & C & F)].
  - rewrite Hfb. simpl. split; [apply repeat_length |]. left. auto.
  - rewrite P, C, F.
    destruct (call_model_shape L _ _ _ _ Hcm) as [Ha Hl].
    split; [now rewrite Hl |].
    right. exists popt, pcov. auto.
Qed.

Lemma fit_best_waveform_shape_witness :
  let L := Reference.lib Reference.fails_on_harmonic (fun _ => 0.01) (fun l => l)
             Reference.stable_sort in
  exists calls i call,
    curve_fit_calls L three_timepoints = Some calls /\
    nth_error calls i = Some call /\
    nth_error waveform_names i = Some "transient"%string /\
    nth_error [extended_harmonic_oscillator; pseudo_square_wave; pseudo_cycloid_wave;
               transient_impulse] i = Some (f call) /\
    List.length [2; 2; 2; 2; 2] = List.length three_timepoints /\
    ((Params [4; 0; 2; 2] = NaNParams /\ Cov [] = NaNCov /\
      [2; 2; 2; 2; 2] = repeat 0 (List.length three_timepoints)) \/
     (exists popt pcov,
         curve_fit L call = Some (popt, pcov) /\
         Params [4; 0; 2; 2] = Params popt /\ Cov [] = Cov pcov /\
         List.length popt = arity (f call) /\
         call_model L (f call) (xdata call) popt = Some [2; 2; 2; 2; 2])).
Proof.
  intro L. apply (fit_best_waveform_shape L three_timepoints).
  vm_compute. reflexivity.
Defined.

Lemma fit_best_waveform_raises_witness :
  let L := Reference.lib Reference.keeps_p0 (fun _ => 0.01) (fun l => l)
             Reference.stable_sort in
  fit_best_waveform L [(Other "Gene", Num 1); (ZT_C 0 1, Num 2)] = None /\
  fit_best_waveform L [(ZT_C (2 ^ 63) 1, Num 1); (ZT_C 0 1, Num 2)] = None /\
  fit_best_waveform L [(Reads (Some 12) (Some 6%N), Num 1); (ZT_C 0 1, Num 2)] <> None.
Proof.
  intro L. split; [| split].
  - apply (fit_best_waveform_raises L). right.
    exists (Other "Gene", Num 1). split; [now left | now left].
  - apply (fit_best_waveform_raises L). right.
    exists (ZT_C (2 ^ 63) 1, Num 1). split; [now left | right; left; reflexivity].
  - intros H.
    destruct (fit_best_waveform_raises L
                [(Reads (Some 12) (Some 6%N), Num 1); (ZT_C 0 1, Num 2)]) as [[Hraise _] _].
    destruct (Hraise H) as [E | (e & [<- | [<- | []]] & [U | [U | U]])];
      discriminate.
Defined.

(** ** An undefined SSE *)

(** When the SSE of some model is NaN, the selected model is one whose
    SSE is NaN, whatever the other SSEs are. *)
Theorem nan_sse_is_selected (L : Libraries) (df_row : Series)
    (fits : Fit * Fit * Fit * Fit) :
  fit_all L df_row = Some fits ->
  Exists (fun x => is_nan x = true) (sse_values fits) ->
  exists i,
    (i < 4)%nat /\
    is_nan (sse (nth i (fits_list fits) (fallback 0))) = true /\
    fit_best_waveform L df_row
      = Some (nth i waveform_names ""%string,
              params (nth i (fits_list fits) (fallback 0)),
              covariance (nth i (fits_list fits) (fallback 0)),
              fitted_values (nth i (fits_list fits) (fallback 0))).
Proof.
  intros Hfit Hex.
  exists (np_argmin (sse_values fits)).
  split.
  { pose proof (np_argmin_lt (sse_values fits) (sse_values_not_nil fits)) as Hlt.
    destruct fits as [[[h s] c] t]. exact Hlt. }
  split.
  - assert (E : sse (nth (np_argmin (sse_values fits)) (fits_list fits) (fallback 0))
                = nth (np_argmin (sse_values fits)) (sse_values fits) 0).
    { pose proof (np_argmin_lt (sse_values fits) (sse_values_not_nil fits)) as Hlt.
      destruct fits as [[[h s] c] t].
      change (List.length (sse_values (h, s, c, t))) with 4%nat in Hlt.
      destruct (np_argmin (sse_values (h, s, c, t))) as [| [| [| [| i]]]];
        try reflexivity. lia. }
    rewrite E.
    destruct (is_nan (nth (np_argmin (sse_values fits)) (sse_values fits) 0)) eqn:N;
      [reflexivity | exfalso].
    destruct (np_argmin_not_nan _ (sse_values_not_nil fits) N) as [Hall _].
    apply Exists_exists in Hex. destruct Hex as (x & Hx & Hnan).
    rewrite Forall_forall in Hall. rewrite (Hall x Hx) in Hnan. discriminate.
  - unfold fit_best_waveform. rewrite Hfit. f_equal. apply best_fit_nth.
Qed.

(** ** The solver is consulted on the four calls only *)

Lemma try_except_with_curve_fit (L : Libraries)
    (solver : CurveFitCall -> option (list float * list (list float)))
    (call : CurveFitCall) (n : nat) :
  try_except (with_curve_fit L solver) call n
  = match solver call with
    | Some (popt, pcov) =>
        match call_model L (f call) (xdata call) popt with
        | Some fitted =>
            {| params := Params popt;
               covariance := Cov pcov;
               fitted_values := fitted;
               sse := np_sum L (map (fun r => r * r)
                                    (map2 PrimFloat.sub (ydata call) fitted)) |}
        | None => fallback n
        end
    | None => fallback n
    end.
Proof.
  unfold try_except, try_fit. simpl.
  destruct (solver call) as [[popt pcov] |]; [| reflexivity].
  change (call_model (with_curve_fit L solver)) with (call_model L).
  destruct (call_model L (f call) (xdata call) popt); reflexivity.
Qed.

(** Two solvers that answer the four calls of a row alike give the same
    result for that row: the solver is not consulted on anything else. *)
Theorem fit_best_waveform_solver_calls (L : Libraries)
    (solver1 solver2 : CurveFitCall -> option (list float * list (list float)))
    (df_row : Series) (calls : list CurveFitCall) :
  curve_fit_calls L df_row = Some calls ->
  Forall (fun call => solver1 call = solver2 call) calls ->
  fit_best_waveform (with_curve_fit L solver1) df_row
  = fit_best_waveform (with_curve_fit L solver2) df_row.
Proof.
  intros Hc Hagree.
  unfold fit_best_waveform, fit_all.
  change (fit_inputs (with_curve_fit L solver1) df_row) with (fit_inputs L df_row).
  change (fit_inputs (with_curve_fit L solver2) df_row) with (fit_inputs L df_row).
  unfold curve_fit_calls in Hc.
  destruct (fit_inputs L df_row) as [[[t a] w] |]; [| reflexivity].
  injection Hc as <-.
  inversion Hagree as [| ? ? Ah Hagree1]; subst.
  inversion Hagree1 as [| ? ? As Hagree2]; subst.
  inversion Hagree2 as [| ? ? Ac Hagree3]; subst.
  inversion Hagree3 as [| ? ? At _]; subst.
  change (harmonic_call (with_curve_fit L solver1)) with (harmonic_call L).
  change (harmonic_call (with_curve_fit L solver2)) with (harmonic_call L).
  change (square_call (with_curve_fit L solver1)) with (square_call L).
  change (square_call (with_curve_fit L solver2)) with (square_call L).
  change (cycloid_call (with_curve_fit L solver1)) with (cycloid_call L).
  change (cycloid_call (with_curve_fit L solver2)) with (cycloid_call L).
  change (transient_call (with_curve_fit L solver1)) with (transient_call L).
  change (transient_call (with_curve_fit L solver2)) with (transient_call L).
  rewrite !try_except_with_curve_fit, Ah, As, Ac, At. reflexivity.
Qed.

Lemma fit_best_waveform_solver_calls_witness :
  let L := Reference.lib Reference.never_fits (fun _ => 0.01) (fun l => l)
             Reference.stable_sort in
  fit_best_waveform (with_curve_fit L Reference.keeps_p0) three_timepoints
  = fit_best_waveform
      (with_curve_fit L (fun call => if (maxfev call <? 10)%Z then None
                                     else Reference.keeps_p0 call))
      three_timepoints.
Proof.
  intro L.
  eapply (fit_best_waveform_solver_calls L).
  - vm_compute. reflexivity.
  - repeat constructor.
Defined.

Lemma nan_sse_is_selected_witness :
  let L := Reference.lib Reference.keeps_p0 (fun _ => 0.01) (fun l => l)
             Reference.stable_sort in
  exists fits i,
    fit_all L [(ZT_C 0 1, Num nan); (ZT_C 6 1, Num 1)] = Some fits /\
    (i < 4)%nat /\
    is_nan (sse (nth i (fits_list fits) (fallback 0))) = true.
Proof.
  intro L.
  eassert (H : fit_all L [(ZT_C 0 1, Num nan); (ZT_C 6 1, Num 1)] = Some _)
    by (vm_compute; reflexivity).
  destruct (nan_sse_is_selected L _ _ H) as (i & Hi & Hnan & _).
  - apply Exists_cons_hd. reflexivity.
  - eexists _, i. split; [exact H |]. split; [exact Hi | exact Hnan].
Defined.

(** ** The rows of the output, feature by feature *)

Lemma rows_of_aligned {A : Type} (g : A * list Cell -> option (float * Oscillation * PyParams))
    (rows : list (A * list Cell)) (index : list IndexLabel)
    (results : list (float * Oscillation * PyParams)) (corr : list float) :
  mapM g rows = Some results ->
  List.length corr = List.length rows ->
  List.length index = List.length rows ->
  let out := rows_of index (map (fun x => fst (fst x)) results) corr
                     (map (fun x => snd (fst x)) results) (map snd results) in
  Forall2 (fun row r => g row = Some (p_val r, Type_ r, parameters r)) rows out /\
  map Feature out = index /\
  map corr_p_val out = corr /\
  map p_val out = map (fun x => fst (fst x)) results.
Proof.
  revert index results corr.
  induction rows as [| row rows IH]; intros index results corr R Hc Hi; simpl in R.
  - injection R as <-. destruct index; [| discriminate]. destruct corr; [| discriminate].
    simpl. repeat split. constructor.
  - destruct (g row) as [[[p o] prm] |] eqn:G; [| discriminate].
    destruct (mapM g rows) as [rs |] eqn:Rs; [| discriminate].
    injection R as <-.
    destruct index as [| ix index]; [discriminate |].
    destruct corr as [| q corr]; [discriminate |].
    injection Hc as Hc. injection Hi as Hi.
    destruct (IH index rs corr eq_refl Hc Hi) as (A1 & A2 & A3 & A4).
    simpl. split; [constructor; [exact G | exact A1] |].
    split; [now f_equal |]. split; [now f_equal |]. now f_equal.
Qed.

(** Before the two sorts the table has the features in input order, each
    row holds the identifier of its input row together with the p-value,
    category and parameters computed from that row, and the corrected
    p-values are those of one correction of the whole p-value column; the
    output is a rearrangement of these rows. *)
Theorem output_rows_aligned (L : Libraries) (df : DataFrame) (out : list OutRow) :
  sort_values_contract L ->
  get_pycycle L df = Some out ->
  exists df' df_out,
    detect_index df = Some df' /\
    Permutation df_out out /\
    map Feature df_out = map fst (df_rows df') /\
    Forall2 (fun row r =>
               feature_result L (iloc_row df' row)
               = Some (p_val r, Type_ r, parameters r))
            (df_rows df') df_out /\
    map corr_p_val df_out = multipletests L (map p_val df_out).
Proof.
  intros HS H. unfold get_pycycle in H.
  destruct (detect_index df) as [df' |]; [| discriminate].
  destruct (mapM _ (df_rows df')) as [results |] eqn:R; [| discriminate].
  unfold make_df_out in H.
  destruct (Nat.eqb_spec (List.length (multipletests L (map (fun x => fst (fst x)) results)))
                         (List.length (map fst (df_rows df')))) as [Hlen |]; [| discriminate].
  injection H as <-. rewrite length_map in Hlen.
  destruct (rows_of_aligned (fun r => feature_result L (iloc_row df' r)) (df_rows df')
              (map fst (df_rows df')) results
              (multipletests L (map (fun x => fst (fst x)) results)) R Hlen)
    as (A1 & A2 & A3 & A4); [apply length_map |].
  eexists df', _. split; [reflexivity |].
  split; [apply sorted_twice_perm, HS |].
  split; [exact A2 |]. split; [exact A1 |].
  rewrite A3, A4. reflexivity.
Qed.

Lemma output_rows_aligned_witness :
  let L := Reference.lib Reference.keeps_p0 Reference.first_percent Reference.all_to_one
             Reference.stable_sort in
  exists df' df_out out,
    get_pycycle L Reference.two_genes = Some out /\
    detect_index Reference.two_genes = Some df' /\
    Permutation df_out out /\
    map Feature df_out = [Ix (Str "geneA"); Ix (Str "geneB")] /\
    map corr_p_val df_out = [1; 1].
Proof.
  intro L.
  eassert (H : get_pycycle L Reference.two_genes = Some _) by (vm_compute; reflexivity).
  destruct (output_rows_aligned L Reference.two_genes _ (stable_sort_contract _ _ _) H)
    as (df' & df_out & D & P & Fe & F2 & C).
  exists df', df_out. eexists. split; [exact H |]. split; [exact D |].
  split; [exact P |].
  pose proof D as D'. vm_compute in D'. injection D' as <-.
  split; [exact Fe |].
  rewrite C. assert (Hl : List.length df_out = 2%nat).
  { rewrite <- (length_map Feature), Fe. reflexivity. }
  destruct df_out as [| r1 [| r2 [| r3 df_out]]]; try discriminate Hl. reflexivity.
Defined.

(** ** The categories of the output *)

Lemma categorize_rhythm_named (gamma : float) :
  In (categorize_rhythm gamma) category_names.
Proof.
  unfold categorize_rhythm, category_names.
  repeat match goal with
         | |- context [if ?c then _ else _] => destruct c
         end; simpl; tauto.
Qed.

Lemma feature_result_category (L : Libraries) (df_row : Series)
    (p : float) (o : Oscillation) (prm : PyParams) :
  feature_result L df_row = Some (p, o, prm) ->
  o = NoCall \/ exists name, o = Category name /\ In name category_names.
Proof.
  unfold feature_result, fit_best_waveform. intros H.
  destruct (fit_all L df_row) as [fits |]; [| discriminate].
  rewrite (best_fit_nth fits (fallback 0)) in H.
  pose proof (np_argmin_lt (sse_values fits) (sse_values_not_nil fits)) as Hlt.
  destruct (mapM cell_num (map snd df_row)) as [values |]; [| discriminate].
  destruct (kendalltau L _ values) as [tau p_value].
  destruct (p_value <? 0.05); [| injection H as _ <- _; now left].
  right.
  destruct fits as [[[h s] c] t].
  change (List.length (sse_values (h, s, c, t))) with 4%nat in Hlt.
  destruct (np_argmin (sse_values (h, s, c, t))) as [| [| [| [| i]]]]; try lia;
    simpl in H.
  - destruct (getitem1 (params h)) as [gamma |]; [| discriminate].
    injection H as _ <- _. eexists. split; [reflexivity | apply categorize_rhythm_named].
  - injection H as _ <- _. eexists. split; [reflexivity | simpl; tauto].
  - injection H as _ <- _. eexists. split; [reflexivity | simpl; tauto].
  - injection H as _ <- _. eexists. split; [reflexivity | simpl; tauto].
Qed.

(** Every category of the output is the no-call marker, one of the five
    rhythm labels or one of 'square_waveform', 'cycloid', 'transient';
    the name 'harmonic_oscillator' is never a category. *)
Theorem output_categories (L : Libraries) (df : DataFrame) (out : list OutRow) :
  sort_values_contract L ->
  get_pycycle L df = Some out ->
  Forall (fun r =>
            Type_ r <> Category "harmonic_oscillator" /\
            (Type_ r = NoCall \/
             exists name, Type_ r = Category name /\ In name category_names)) out.
Proof.
  intros HS H.
  destruct (get_pycycle_inv L df out H) as (df' & results & df_out & _ & R & _ & F & ->).
  apply (Permutation_Forall (sorted_twice_perm L df_out HS)).
  eapply Forall_impl; [| exact F]. intros r Hr.
  destruct (mapM_In _ _ _ _ R Hr) as (row & _ & Hrow).
  destruct (feature_result_category L _ _ _ _ Hrow) as [Hn | (name & Hc & Hin)].
  - split; [congruence | now left].
  - split; [| right; eauto].
    rewrite Hc. intros E. injection E as ->.
    simpl in Hin. repeat (destruct Hin as [Hin | Hin]; [discriminate Hin |]). exact Hin.
Qed.

Lemma output_categories_witness :
  let L := Reference.lib Reference.keeps_p0 Reference.first_percent (fun l => l)
             Reference.stable_sort in
  exists out,
    get_pycycle L Reference.two_genes = Some out /\
    map Type_ out = [Category "harmonic"; NoCall] /\
    Forall (fun r =>
              Type_ r <> Category "harmonic_oscillator" /\
              (Type_ r = NoCall \/
               exists name, Type_ r = Category name /\ In name category_names)) out.
Proof.
  intro L.
  eassert (H : get_pycycle L Reference.two_genes = Some _) by (vm_compute; reflexivity).
  eexists. split; [exact H |]. split; [reflexivity |].
  apply (output_categories L Reference.two_genes _).
  - apply stable_sort_contract.
  - exact H.
Defined.

(** ** When [get_pycycle] raises *)

Lemma feature_result_raises (L : Libraries) (df_row : Series) :
  fit_best_waveform L df_row = None -> feature_result L df_row = None.
Proof. intros H. unfold feature_result. now rewrite H. Qed.

(** [get_pycycle] raises on a table without rows, on a table without
    columns, and on a table that, once the index is detected, has a row
    with no column left or with an entry that cannot be read: a column
    label from which line 116 reads no float, a column label from which
    lines 95-96 read no 64-bit integer, or a cell that is not a number.
    In particular an identifier column that holds numbers is not taken as
    the index and makes the run raise. *)
Theorem get_pycycle_raises (L : Libraries) (df : DataFrame) :
  (df_rows df = [] -> get_pycycle L df = None) /\
  (forall ix rows, df_rows df = (ix, []) :: rows -> get_pycycle L df = None) /\
  (forall df' r,
      detect_index df = Some df' ->
      In r (df_rows df') ->
      iloc_row df' r = [] \/ (exists e, In e (iloc_row df' r) /\ unreadable e) ->
      get_pycycle L df = None).
Proof.
  split; [| split].
  - intros E. unfold get_pycycle, detect_index, iloc_0_0. now rewrite E.
  - intros ix rows E. unfold get_pycycle, detect_index, iloc_0_0. now rewrite E.
  - intros df' r D Hr Hbad. unfold get_pycycle. rewrite D.
    rewrite (mapM_None _ (df_rows df') r Hr); [reflexivity |].
    apply feature_result_raises, fit_inputs_raise_spreads, fit_inputs_raise. exact Hbad.
Qed.

Lemma get_pycycle_raises_witness :
  let L := Reference.lib Reference.keeps_p0 Reference.first_percent (fun l => l)
             Reference.stable_sort in
  get_pycycle L {| df_columns := []; df_rows := [] |} = None /\
  get_pycycle L {| df_columns := [Other "Gene"; ZT_C 0 1; ZT_C 6 1];
                   df_rows := [(RangeIx 0, [Num 17; Num 5; Num 7])] |} = None.
Proof.
  intro L. split.
  - apply (get_pycycle_raises L). reflexivity.
  - eapply (get_pycycle_raises L).
    + reflexivity.
    + now left.
    + right. exists (Other "Gene", Num 17). split; [now left | now left].
Defined.

Lemma sample_var_contract fit p correct sort :
  series_var_contract (Reference.lib fit p correct sort).
Proof.
  intros group H. simpl. unfold Reference.sample_var.
  destruct (Nat.ltb_spec (List.length group) 2); [reflexivity | lia].
Qed.

Lemma calculate_variances_small_group_witness :
  is_nan nan = true.
Proof.
  apply (calculate_variances_small_group
           (Reference.lib Reference.never_fits (fun _ => 0.01) (fun l => l)
              Reference.stable_sort)
           three_timepoints [(0%N, 2); (6%N, 2); (12%N, nan)] 12 nan).
  - apply sample_var_contract.
  - vm_compute. reflexivity.
  - right. right. now left.
  - simpl. lia.
Defined.

(** ** Category and parameters of one row *)

Lemma feature_result_consistent (L : Libraries) (df_row : Series)
    (p : float) (name : string) (prm : PyParams) :
  feature_result L df_row = Some (p, Category name, prm) ->
  exists popt,
    prm = Params popt /\
    (((name = "square_waveform" \/ name = "cycloid")%string /\ List.length popt = 5%nat) \/
     (name = "transient"%string /\ List.length popt = 4%nat) \/
     (exists gamma, List.length popt = 5%nat /\ nth_error popt 1 = Some gamma /\
                    name = categorize_rhythm gamma)).
Proof.
  unfold feature_result. intros H.
  destruct (fit_best_waveform L df_row) as [[[[w prm'] cov] fitted] |] eqn:FB;
    [| discriminate].
  destruct (selected_call L df_row w prm' cov fitted FB)
    as (calls & i & call & _ & _ & Hw & Hm & _ & Hp & _ & _ & Hinf).
  destruct (mapM cell_num (map snd df_row)) as [values |]; [| discriminate].
  destruct (kendalltau L fitted values) as [tau p_value].
  destruct (p_value <? 0.05); [| discriminate].
  assert (Hshape : i <> 0%nat ->
                   exists popt, prm' = Params popt /\ List.length popt = arity (f call)).
  { intros Hi.
    destruct (try_except_shape L call (List.length df_row))
      as [Hfb | (popt & pcov & y & _ & Hcm & P & _ & _)].
    - elim Hi. apply Hinf. now rewrite Hfb.
    - exists popt. split; [congruence |]. apply (call_model_shape L _ _ _ _ Hcm). }
  destruct i as [| [| [| [| i]]]]; simpl in Hw, Hm;
    [ | | | | destruct i; discriminate Hw];
    injection Hw as <-; injection Hm as Hm; simpl in H.
  - destruct (getitem1 prm') as [gamma |] eqn:G; [| discriminate].
    injection H as _ <- <-.
    destruct (try_except_shape L call (List.length df_row))
      as [Hfb | (popt & pcov & y & _ & Hcm & P & _ & _)].
    + rewrite Hp, Hfb in G. discriminate G.
    + rewrite Hp, P in G. simpl in G.
      exists popt. split; [congruence |]. right. right. exists gamma.
      destruct (call_model_shape L _ _ _ _ Hcm) as [Ha _]. rewrite <- Hm in Ha.
      auto.
  - injection H as _ <- <-.
    destruct (Hshape ltac:(discriminate)) as (popt & -> & Ha). rewrite <- Hm in Ha.
    exists popt. split; [reflexivity |]. left. auto.
  - injection H as _ <- <-.
    destruct (Hshape ltac:(discriminate)) as (popt & -> & Ha). rewrite <- Hm in Ha.
    exists popt. split; [reflexivity |]. left. auto.
  - injection H as _ <- <-.
    destruct (Hshape ltac:(discriminate)) as (popt & -> & Ha). rewrite <- Hm in Ha.
    exists popt. split; [reflexivity |]. right. left. auto.
Qed.

(** In every row of the output that has a category, the parameters are a
    fitted array, never the undefined marker: five parameters when the
    category is 'square_waveform' or 'cycloid', four when it is
    'transient', and otherwise five parameters whose second entry, the
    damping coefficient, classifies to the category. *)
Theorem output_category_matches_parameters (L : Libraries) (df : DataFrame)
    (out : list OutRow) :
  sort_values_contract L ->
  get_pycycle L df = Some out ->
  Forall (fun r =>
            forall name, Type_ r = Category name ->
              exists popt,
                parameters r = Params popt /\
                (((name = "square_waveform" \/ name = "cycloid")%string /\
                  List.length popt = 5%nat) \/
                 (name = "transient"%string /\ List.length popt = 4%nat) \/
                 (exists gamma, List.length popt = 5%nat /\
                                nth_error popt 1 = Some gamma /\
                                name = categorize_rhythm gamma))) out.
Proof.
  intros HS H.
  destruct (get_pycycle_inv L df out H) as (df' & results & df_out & _ & R & _ & F & ->).
  apply (Permutation_Forall (sorted_twice_perm L df_out HS)).
  eapply Forall_impl; [| exact F]. intros r Hr name Hname.
  destruct (mapM_In _ _ _ _ R Hr) as (row & _ & Hrow).
  rewrite Hname in Hrow.
  exact (feature_result_consistent L _ _ _ _ Hrow).
Qed.

Lemma output_category_matches_parameters_witness :
  let L := Reference.lib Reference.keeps_p0 Reference.first_percent (fun l => l)
             Reference.stable_sort in
  exists out,
    get_pycycle L Reference.two_genes = Some out /\
    map Type_ out = [Category "harmonic"; NoCall] /\
    Forall (fun r =>
              forall name, Type_ r = Category name ->
                exists popt,
                  parameters r = Params popt /\
                  (((name = "square_waveform" \/ name = "cycloid")%string /\
                    List.length popt = 5%nat) \/
                   (name = "transient"%string /\ List.length popt = 4%nat) \/
                   (exists gamma, List.length popt = 5%nat /\
                                  nth_error popt 1 = Some gamma /\
                                  name = categorize_rhythm gamma))) out.
Proof.
  intro L.
  eassert (H : get_pycycle L Reference.two_genes = Some _) by (vm_compute; reflexivity).
  eexists. split; [exact H |]. split; [reflexivity |].
  apply (output_category_matches_parameters L Reference.two_genes _).
  - apply stable_sort_contract.
  - exact H.
Defined.

(** ** The identifiers of the output *)

(** When the first cell of the table is text, the Feature column of the
    output holds the first cell of every input row; otherwise it holds
    the index labels of the input.  Only the first cell of the first row
    decides. *)
Theorem output_features_by_detection (L : Libraries) (df : DataFrame)
    (out : list OutRow) (c0 : Cell) :
  sort_values_contract L ->
  get_pycycle L df = Some out ->
  iloc_0_0 df = Some c0 ->
  (is_str c0 = true ->
   Permutation (map Feature out)
     (map (fun r => match snd r with c :: _ => Ix c | [] => fst r end) (df_rows df))) /\
  (is_str c0 = false -> Permutation (map Feature out) (map fst (df_rows df))).
Proof.
  intros HS H H0.
  destruct (get_pycycle_inv L df out H) as (df' & results & df_out & D & _ & Fe & _ & ->).
  pose proof (Permutation_map Feature (sorted_twice_perm L df_out HS)) as P.
  rewrite Fe in P. unfold detect_index in D. rewrite H0 in D. injection D as <-.
  split; intros E; rewrite E in P; symmetry; etransitivity; try exact P.
  - simpl. rewrite map_map. apply Permutation_refl'.
    apply map_ext. intros [ix [| c cs]]; reflexivity.
  - reflexivity.
Qed.

Lemma output_features_by_detection_witness :
  let L := Reference.lib Reference.keeps_p0 Reference.first_percent (fun l => l)
             Reference.stable_sort in
  exists out,
    get_pycycle L Reference.two_genes = Some out /\
    Permutation (map Feature out) [Ix (Str "geneA"); Ix (Str "geneB")].
Proof.
  intro L.
  eassert (H : get_pycycle L Reference.two_genes = Some _) by (vm_compute; reflexivity).
  eexists. split; [exact H |].
  apply (output_features_by_detection L Reference.two_genes _ (Str "geneA")
           (stable_sort_contract _ _ _) H eq_refl).
  reflexivity.
Defined.
